(** * Batch-oriented data access of the news front end

    A shallow embedding of the data-access layer of the site generator:
    [src/lib/api.ts] (build time, no cache), [src/lib/utils.ts] (build time,
    process-wide caches), [src/scripts/main.js] (browser client) and
    [reference/api.ts] with [reference/store.ts] (the store-based reference).

    Ids are JavaScript numbers holding integers and are modelled as [Z];
    [Math.floor (n / 100)] on an integer [n] is [n / 100] in [Z] (floor
    division).  Network access is an explicit effect: every accessor runs in
    a state-and-exception monad whose state carries the log of the requests
    issued so far (and, for [utils.ts], the module-level cache maps); the
    remote server is a read-only table from resource to reply. *)

From Stdlib Require Import ZArith List Bool Ascii String Sorted Lia.
From stdpp Require Import gmap strings list fin_maps.

Local Open Scope Z_scope.

(* ===================================================================== *)
(** ** Data model ([src/types/db.ts]) *)
(* ===================================================================== *)

Record NewsRawItem := {
  id : Z;
  source : string;
  title : string;
  article : string;
  cats : list Z;
  imgUrl : string;
  cluster_id : Z;
  created_at : string;
  guid : string
}.

Record NewsArticle := {
  a_id : Z;
  a_title : string;
  short_desc : string;
  articles : list Z;
  a_created_at : string;
  a_cats : list Z
}.

(** [Meta.tables.<table>.latest_id], one field per table. *)
Record Meta := {
  generated_at : string;
  news_articles_latest_id : Z;
  news_raw_latest_id : Z;
  news_sources_latest_id : Z;
  tag_articles_latest_id : Z;
  tags_latest_id : Z
}.

(** [TagArticles]: the ordered raw-item ids of one tag. *)
Record TagArticles := {
  tag_id : Z;
  ta_articles : list Z;
  ta_description : string
}.

(* ===================================================================== *)
(** ** Batch resolver *)
(* ===================================================================== *)

(** [getBatchId]: [Math.floor(newsId / 100) * 100]. *)
Definition getBatchId (newsId : Z) : Z := (newsId / 100) * 100.


(* ===================================================================== *)
(** ** The JavaScript built-ins the accessors use *)
(* ===================================================================== *)

Module Js.

(** [Array.prototype.sort(compareFn)] is a stable sort (ECMAScript 2019):
    elements that compare equal keep their order.  It is modelled by the
    stable insertion sort; for the comparators of this program (a
    difference of integer keys) every stable sort returns this list. *)
Fixpoint insert {A} (compareFn : A -> A -> Z) (x : A) (l : list A) : list A :=
  match l with
  | [] => [x]
  | y :: l' =>
      if compareFn x y <=? 0 then x :: y :: l'
      else y :: insert compareFn x l'
  end.

Definition sort {A} (compareFn : A -> A -> Z) (l : list A) : list A :=
  fold_right (insert compareFn) [] l.

(** [arr.slice(0, end)]: a negative [end] counts from the end. *)
Definition slice0 {A} (end_ : Z) (l : list A) : list A :=
  if 0 <=? end_ then firstn (Z.to_nat end_) l
  else firstn (length l - Z.to_nat (- end_)) l.

(** [Math.ceil(a / b)] on integers, [b] positive. *)
Definition ceil_div (a b : Z) : Z := - ((- a) / b).

(** The indices of [for (let i = 0; i < n; i++)]. *)
Definition range (n : Z) : list Z := map Z.of_nat (seq 0 (Z.to_nat n)).

(** [arr.includes(x)] on an array of numbers. *)
Definition arr_includes (arr : list Z) (x : Z) : bool := existsb (Z.eqb x) arr.

(** [arr.find(pred)]. *)
Definition find {A} (pred : A -> bool) (arr : list A) : option A := List.find pred arr.

(** [String.prototype.toLowerCase], on ASCII text. *)
Definition lower_ascii (c : ascii) : ascii :=
  let n := nat_of_ascii c in
  if ((65 <=? n)%nat && (n <=? 90)%nat)%bool then ascii_of_nat (n + 32) else c.

Fixpoint toLowerCase (s : string) : string :=
  match s with
  | EmptyString => EmptyString
  | String c s' => String (lower_ascii c) (toLowerCase s')
  end.

(** [String.prototype.includes]: substring test. *)
Fixpoint startsWith (s sub : string) : bool :=
  match sub, s with
  | EmptyString, _ => true
  | String _ _, EmptyString => false
  | String b sub', String a s' => (Ascii.eqb a b && startsWith s' sub')%bool
  end.

Fixpoint includes (s sub : string) : bool :=
  (startsWith s sub ||
   match s with
   | EmptyString => false
   | String _ s' => includes s' sub
   end)%bool.

(** [Map] with number keys.  A JavaScript [Map] iterates in the order in
    which its keys were first inserted, so it is an association list in
    that order; [set] on a present key replaces the value in place. *)
Module Map.
Definition t (V : Type) : Type := list (Z * V).

Definition has {V} (k : Z) (m : t V) : bool :=
  existsb (fun e => fst e =? k) m.

Definition get {V} (k : Z) (m : t V) : option V :=
  option_map snd (List.find (fun e => fst e =? k) m).

Definition set {V} (k : Z) (v : V) (m : t V) : t V :=
  if has k m then map (fun e => if fst e =? k then (k, v) else e) m
  else m ++ [(k, v)].

(** [new Map(entries)]. *)
Definition of_entries {V} (entries : list (Z * V)) : t V :=
  fold_left (fun m e => set (fst e) (snd e) m) entries [].

(** [m.get(k).push(x)]: the array stored under [k] is extended in
    place. *)
Definition push {V} (k : Z) (x : V) (m : t (list V)) : t (list V) :=
  map (fun e => if fst e =? k then (fst e, snd e ++ [x]) else e) m.
End Map.

(** [Array.from(new Set(arr))]: the distinct values, in the order of
    their first occurrence. *)
Definition set_add (s : list Z) (x : Z) : list Z :=
  if arr_includes s x then s else s ++ [x].

Definition distinct (arr : list Z) : list Z := fold_left set_add arr [].

(** [arr.map((x, index) => [x, index])]. *)
Fixpoint with_index_from {A} (n : Z) (arr : list A) : list (A * Z) :=
  match arr with
  | [] => []
  | x :: arr' => (x, n) :: with_index_from (n + 1) arr'
  end.

Definition with_index {A} (arr : list A) : list (A * Z) := with_index_from 0 arr.

(** [!s.trim()]: the string is empty once its white space is trimmed, that
    is, it holds white space only (the ASCII white space characters). *)
Definition is_space (c : ascii) : bool :=
  let n := nat_of_ascii c in
  ((n =? 32)%nat || ((9 <=? n)%nat && (n <=? 13)%nat))%bool.

Fixpoint blank (s : string) : bool :=
  match s with
  | EmptyString => true
  | String c s' => (is_space c && blank s')%bool
  end.

End Js.

(* ===================================================================== *)
(** ** The remote server and the effect monad *)
(* ===================================================================== *)

(** The JSON resources the accessors request: [<base_url>/<name>.json]. *)
Inductive Resource :=
| news_raw (batchStart : Z)        (* news_raw.<batchStart>.json *)
| news_articles (batchStart : Z)   (* news_articles.<batchStart>.json *)
| meta.                            (* meta.json *)

(** What [fetch] resolves to: a response with [ok] and a decoded body, or a
    response that is not [ok]. *)
Inductive Response (A : Type) :=
| Ok (body : A)
| NotOk (status : Z).
Arguments Ok {A} body.
Arguments NotOk {A} status.

(** The reply to a request: [None] when [fetch] itself rejects (transport
    failure, abort on timeout). *)
Definition Reply (A : Type) : Type := option (Response A).

Record Server := {
  raw_file : Z -> Reply (list NewsRawItem);
  articles_file : Z -> Reply (list NewsArticle);
  meta_file : Reply Meta
}.

Inductive JsError :=
| FetchRejected (r : Resource)
| FailedToFetch (r : Resource) (status : Z).

Inductive Outcome (A : Type) :=
| Returned (a : A)
| Thrown (e : JsError).
Arguments Returned {A} a.
Arguments Thrown {A} e.

(** The state threaded through the accessors: the module-level caches (of
    type [C]; [unit] where the module has none) and the requests sent. *)
Record St (C : Type) := mkSt { caches : C; requests : list Resource }.
Arguments mkSt {C} caches requests.
Arguments caches {C} s.
Arguments requests {C} s.

Definition M (C A : Type) : Type := St C -> Outcome A * St C.

Definition ret {C A} (a : A) : M C A := fun s => (Returned a, s).

Definition throw {C A} (e : JsError) : M C A := fun s => (Thrown e, s).

Definition bind {C A B} (m : M C A) (k : A -> M C B) : M C B :=
  fun s =>
    match m s with
    | (Returned a, s') => k a s'
    | (Thrown e, s') => (Thrown e, s')
    end.

(** [try { m } catch (error) { handler }]. *)
Definition try_catch {C A} (m : M C A) (handler : JsError -> M C A) : M C A :=
  fun s =>
    match m s with
    | (Returned a, s') => (Returned a, s')
    | (Thrown e, s') => handler e s'
    end.

Definition get_caches {C} : M C C := fun s => (Returned (caches s), s).

Definition set_caches {C} (c : C) : M C unit :=
  fun s => (Returned tt, mkSt c (requests s)).

Notation "'let*' x ':=' m 'in' k" := (bind m (fun x => k))
  (at level 10, x name, m at level 100, k at level 200).

(** [for (const x of xs) { acc = body(acc, x) }] with awaits in the body. *)
Fixpoint for_of {C A B} (xs : list A) (acc : B) (body : B -> A -> M C B) : M C B :=
  match xs with
  | [] => ret acc
  | x :: xs' => let* acc' := body acc x in for_of xs' acc' body
  end.

(** [await Promise.all(promises)]: every promise was started when it was
    created, so every request is sent whatever the others do; the joint
    promise rejects as soon as one of them rejects. *)
Fixpoint promise_all {C A} (promises : list (M C A)) : M C (list A) :=
  match promises with
  | [] => ret []
  | p :: ps =>
      fun s =>
        match p s with
        | (Returned a, s') =>
            match promise_all ps s' with
            | (Returned l, s'') => (Returned (a :: l), s'')
            | (Thrown e, s'') => (Thrown e, s'')
            end
        | (Thrown e, s') => (Thrown e, snd (promise_all ps s'))
        end
  end.

(** [fetch(url)]: the request is sent (and logged); the promise rejects
    when there is no reply. *)
Definition fetch {C A} (r : Resource) (reply : Reply A) : M C (Response A) :=
  fun s =>
    let s' := mkSt (caches s) (requests s ++ [r]) in
    match reply with
    | Some response => (Returned response, s')
    | None => (Thrown (FetchRejected r), s')
    end.

(* ===================================================================== *)
(** ** [src/lib/api.ts]: build-time accessors without cache *)
(* ===================================================================== *)

Module Api.
Section WithServer.
Variable srv : Server.

Definition M := M unit.

(** [fetchFile<T>(file)]: throws when the response is not ok. *)
Definition fetchFile {A} (file : Resource) (reply : Reply A) : M A :=
  let* response := fetch file reply in
  match response with
  | NotOk status => throw (FailedToFetch file status)
  | Ok data => ret data
  end.

Definition fetchMeta : M Meta := fetchFile meta (meta_file srv).

Definition fetchNewsRawBatch (startId : Z) : M (list NewsRawItem) :=
  let batchStart := getBatchId startId in
  try_catch
    (let* response := fetch (news_raw batchStart) (raw_file srv batchStart) in
     match response with
     | NotOk _ => ret []
     | Ok body => ret body
     end)
    (fun error => ret []).

(** The grouping loop of [fetchNewsRawByIds]. *)
Definition group_id (batchGroups : Js.Map.t (list Z)) (id : Z) : Js.Map.t (list Z) :=
  let batchId := getBatchId id in
  let batchGroups :=
    if negb (Js.Map.has batchId batchGroups) then Js.Map.set batchId [] batchGroups
    else batchGroups in
  Js.Map.push batchId id batchGroups.

Definition batchGroups (ids : list Z) : Js.Map.t (list Z) :=
  fold_left group_id ids [].

(** [(a, b) => (idOrder.get(a.id) || 0) - (idOrder.get(b.id) || 0)] *)
Definition position (idOrder : Js.Map.t Z) (x : Z) : Z :=
  match Js.Map.get x idOrder with
  | Some index => index
  | None => 0
  end.

Definition by_id_order (idOrder : Js.Map.t Z) (a b : NewsRawItem) : Z :=
  position idOrder (id a) - position idOrder (id b).

Definition fetchNewsRawByIds (ids : list Z) : M (list NewsRawItem) :=
  if (length ids =? 0)%nat then ret []
  else
    let* results :=
      for_of (batchGroups ids) []
        (fun results group =>
           let '(batchId, idsInBatch) := group in
           let* batch := fetchNewsRawBatch batchId in
           let items := List.filter (fun item => Js.arr_includes idsInBatch (id item)) batch in
           ret (results ++ items)) in
    let idOrder := Js.Map.of_entries (Js.with_index ids) in
    ret (Js.sort (by_id_order idOrder) results).

Definition fetchNewsRawById (id_ : Z) : M (option NewsRawItem) :=
  let* batch := fetchNewsRawBatch id_ in
  ret (Js.find (fun item => id item =? id_) batch).

(** [staticLimit] is [parseInt(NEWS_STATIC_ARTICLE_LIMIT || '100')], the
    configured static-retention limit. *)
Definition matches (queryLower : string) (item : NewsRawItem) : bool :=
  (Js.includes (Js.toLowerCase (title item)) queryLower
   || Js.includes (Js.toLowerCase (article item)) queryLower)%bool.

Definition searchNews (staticLimit : Z) (query : string) (limit : Z) : M (list NewsRawItem) :=
  let numBatches := Js.ceil_div staticLimit 100 in
  let promises := map (fun i => fetchNewsRawBatch (i * 100)) (Js.range numBatches) in
  let* allBatches := promise_all promises in
  let allItems := concat allBatches in
  let queryLower := Js.toLowerCase query in
  let results := List.filter (matches queryLower) allItems in
  ret (Js.slice0 limit results).

Definition fetchRecentNews (limit : Z) : M (list NewsRawItem) :=
  let* meta := fetchMeta in
  let latestId := news_raw_latest_id meta in
  let batchSize := 100 in
  let numBatches := Js.ceil_div limit batchSize in
  let allRawIds := map (fun i => latestId - i * batchSize) (Js.range numBatches) in
  let* results :=
    for_of allRawIds []
      (fun results startId =>
         let* batch := fetchNewsRawBatch startId in
         ret (results ++ batch)) in
  let sorted := Js.sort (fun a b => id b - id a) results in
  ret (Js.slice0 limit sorted).

(** [fetchNewsArticles(latestId?, limit)].  [fetch_base] is the call
    [fetchFile('news_articles')] of the branch taken when [latestId] is
    absent or 0. *)
Definition fetchArticlesBatch (batchStart : Z) : M (list NewsArticle) :=
  try_catch
    (let* res := fetch (news_articles batchStart) (articles_file srv batchStart) in
     match res with
     | NotOk _ => ret []
     | Ok body => ret body
     end)
    (fun err => ret []).

Definition fetchNewsArticles (fetch_base : M (list NewsArticle)) (staticLimit : Z)
    (latestId : option Z) (limit : Z) : M (list NewsArticle) :=
  match latestId with
  | None => fetch_base
  | Some latestId =>
      if latestId =? 0 then fetch_base
      else
        let batchSize := 100 in
        let batches := Js.ceil_div latestId batchSize in
        let batchesToFetch := Z.min batches (Js.ceil_div staticLimit batchSize) in
        let promises :=
          map (fun i => fetchArticlesBatch ((batches - 1 - i) * batchSize))
            (Js.range batchesToFetch) in
        let* results := promise_all promises in
        let flatResults := concat results in
        if ((0 <? limit) && (limit <? Z.of_nat (length flatResults)))%bool
        then ret (Js.slice0 limit flatResults)
        else ret flatResults
  end.

Definition fetchNewsArticleById (id_ : Z) : M (option NewsArticle) :=
  let batchStart := getBatchId id_ in
  try_catch
    (let* articles :=
       fetchFile (news_articles batchStart) (articles_file srv batchStart) in
     ret (Js.find (fun a => a_id a =? id_) articles))
    (fun error => ret None).

(** [fetchNewsByTag(tagId, limit)]; [fetchTagArticles] is the call of that
    name. *)
Definition fetchNewsByTag (fetchTagArticles : M (list TagArticles))
    (tagId limit : Z) : M (list NewsRawItem) :=
  let* tagArticles := fetchTagArticles in
  match Js.find (fun t => tag_id t =? tagId) tagArticles with
  | None => ret []
  | Some tagMapping =>
      if (length (ta_articles tagMapping) =? 0)%nat then ret []
      else
        let articleIds := Js.slice0 limit (ta_articles tagMapping) in
        fetchNewsRawByIds articleIds
  end.

End WithServer.
End Api.

(* ===================================================================== *)
(** ** [src/lib/utils.ts]: build-time accessors with process-wide caches *)
(* ===================================================================== *)

Module Utils.

(** [cleanTitle]: [title.replace(/\*\*/g, '')], every occurrence of two
    stars removed, scanning from the left. *)
Fixpoint cleanTitle (title : string) : string :=
  match title with
  | EmptyString => EmptyString
  | String c rest =>
      match rest with
      | EmptyString => String c EmptyString
      | String d rest' =>
          if (Ascii.eqb c "*" && Ascii.eqb d "*")%bool then cleanTitle rest'
          else String c (cleanTitle rest)
      end
  end.

(** [slugify]: lower case, every maximal run of characters outside
    [a-z0-9] replaced by one dash, then a dash at the start and a dash at
    the end removed. *)
Definition is_slug_char (c : ascii) : bool :=
  let n := nat_of_ascii c in
  (((97 <=? n)%nat && (n <=? 122)%nat) || ((48 <=? n)%nat && (n <=? 57)%nat))%bool.

Fixpoint dash_runs (in_run : bool) (s : string) : string :=
  match s with
  | EmptyString => EmptyString
  | String c s' =>
      if is_slug_char c then String c (dash_runs false s')
      else if in_run then dash_runs true s'
      else String "-" (dash_runs true s')
  end.

Definition strip_leading_dash (s : string) : string :=
  match s with
  | String c s' => if Ascii.eqb c "-" then s' else s
  | EmptyString => EmptyString
  end.

Fixpoint strip_trailing_dash (s : string) : string :=
  match s with
  | EmptyString => EmptyString
  | String c EmptyString => if Ascii.eqb c "-" then EmptyString else s
  | String c s' => String c (strip_trailing_dash s')
  end.

Definition slugify (text : string) : string :=
  strip_trailing_dash (strip_leading_dash (dash_runs false (Js.toLowerCase text))).

(** The module-level [Map]s.  Of the files memoized by name in
    [fileCache] only [meta] is read by the accessors below. *)
Record Caches := mkCaches {
  fileCache : gmap string Meta;
  newsRawBatchCache : gmap Z (list NewsRawItem);
  newsArticleCache : gmap Z (list NewsArticle)
}.

Definition no_caches : Caches := mkCaches ∅ ∅ ∅.

Definition fileCache_set (file : string) (data : Meta) (c : Caches) : Caches :=
  mkCaches (<[file := data]> (fileCache c)) (newsRawBatchCache c) (newsArticleCache c).

Definition newsRawBatchCache_set (k : Z) (v : list NewsRawItem) (c : Caches) : Caches :=
  mkCaches (fileCache c) (<[k := v]> (newsRawBatchCache c)) (newsArticleCache c).

Definition newsArticleCache_set (k : Z) (v : list NewsArticle) (c : Caches) : Caches :=
  mkCaches (fileCache c) (newsRawBatchCache c) (<[k := v]> (newsArticleCache c)).

Section WithServer.
Variable srv : Server.

Definition M := M Caches.

(** [fetchFile<Meta>('meta')], memoized by file name. *)
Definition fetchMeta : M Meta :=
  let* c := get_caches in
  match fileCache c !! "meta"%string with
  | Some data => ret data
  | None =>
      let* response := fetch meta (meta_file srv) in
      match response with
      | NotOk status => throw (FailedToFetch meta status)
      | Ok data =>
          let* c := get_caches in
          let* _ := set_caches (fileCache_set "meta" data c) in
          ret data
      end
  end.

Definition fetchFileUncached {A} (file : Resource) (reply : Reply A) : M A :=
  let* response := fetch file reply in
  match response with
  | NotOk status => throw (FailedToFetch file status)
  | Ok data => ret data
  end.

Definition fetchNewsArticleById (id_ : Z) : M (option NewsArticle) :=
  let batchStart := getBatchId id_ in
  let* c := get_caches in
  match newsArticleCache c !! batchStart with
  | Some cached => ret (Js.find (fun a => a_id a =? id_) cached)
  | None =>
      try_catch
        (let* articles :=
           fetchFileUncached (news_articles batchStart) (articles_file srv batchStart) in
         let article := Js.find (fun a => a_id a =? id_) articles in
         let* _ :=
           match article with
           | Some _ =>
               let* c := get_caches in
               set_caches (newsArticleCache_set id_ articles c)
           | None => ret tt
           end in
         ret article)
        (fun error => ret None)
  end.

Definition fetchNewsRawBatch (startId : Z) : M (list NewsRawItem) :=
  let batchStart := getBatchId startId in
  let* c := get_caches in
  match newsRawBatchCache c !! batchStart with
  | Some cached => ret cached
  | None =>
      try_catch
        (let* result :=
           fetchFileUncached (news_raw batchStart) (raw_file srv batchStart) in
         let* c := get_caches in
         let* _ := set_caches (newsRawBatchCache_set batchStart result c) in
         ret result)
        (fun error => ret [])
  end.

Definition fetchRecentNews (limit : Z) : M (list NewsRawItem) :=
  let* meta := fetchMeta in
  let latestId := news_raw_latest_id meta in
  let batchSize := 100 in
  let numBatches := Js.ceil_div limit batchSize in
  let allRawIds := map (fun i => latestId - i * batchSize) (Js.range numBatches) in
  let* results :=
    for_of allRawIds []
      (fun results startId =>
         let* batch := fetchNewsRawBatch startId in
         ret (results ++ batch)) in
  let sorted := Js.sort (fun a b => id b - id a) results in
  ret (Js.slice0 limit sorted).

(** The cached [fetchNewsRawByIds] and [fetchNewsRawById]: the text of
    [api.ts] over the cached [fetchNewsRawBatch]. *)
Definition fetchNewsRawByIds (ids : list Z) : M (list NewsRawItem) :=
  if (length ids =? 0)%nat then ret []
  else
    let* results :=
      for_of (Api.batchGroups ids) []
        (fun results group =>
           let '(batchId, idsInBatch) := group in
           let* batch := fetchNewsRawBatch batchId in
           let items := List.filter (fun item => Js.arr_includes idsInBatch (id item)) batch in
           ret (results ++ items)) in
    let idOrder := Js.Map.of_entries (Js.with_index ids) in
    ret (Js.sort (Api.by_id_order idOrder) results).

Definition fetchNewsRawById (id_ : Z) : M (option NewsRawItem) :=
  let* batch := fetchNewsRawBatch id_ in
  ret (Js.find (fun item => id item =? id_) batch).

End WithServer.
End Utils.

(* ===================================================================== *)
(** ** [src/scripts/main.js]: the browser client *)
(* ===================================================================== *)

Module Client.
Section WithServer.
Variable srv : Server.

Definition M := M unit.

Definition group_id (batchGroups : Js.Map.t (list Z)) (id : Z) : Js.Map.t (list Z) :=
  let batchId := (id / 100) * 100 in
  let batchGroups :=
    if negb (Js.Map.has batchId batchGroups) then Js.Map.set batchId [] batchGroups
    else batchGroups in
  Js.Map.push batchId id batchGroups.

(** [null] and [undefined] are both [None]. *)
Definition fetchNewsRawById (id_ : Z) : M (option NewsRawItem) :=
  let batchId := (id_ / 100) * 100 in
  try_catch
    (let* response := fetch (news_raw batchId) (raw_file srv batchId) in
     match response with
     | NotOk _ => ret None
     | Ok batch => ret (Js.find (fun item => id item =? id_) batch)
     end)
    (fun error => ret None).

Definition fetchNewsRawByIds (ids : list Z) : M (list NewsRawItem) :=
  if (length ids =? 0)%nat then ret []
  else
    let batchGroups := fold_left group_id ids [] in
    let* results :=
      for_of batchGroups []
        (fun results group =>
           let '(batchId, idsInBatch) := group in
           try_catch
             (let* response := fetch (news_raw batchId) (raw_file srv batchId) in
              match response with
              | NotOk _ => ret results            (* continue *)
              | Ok batch =>
                  let items :=
                    List.filter (fun item => Js.arr_includes idsInBatch (id item)) batch in
                  ret (results ++ items)
              end)
             (fun error => ret results)) in
    let idOrder := Js.Map.of_entries (Js.with_index ids) in
    ret (Js.sort (Api.by_id_order idOrder) results).


(** [fetchNewsByTag(tagId, limit)] of the client; [fetch_tag_articles] is
    the call [fetch(`${API_BASE_URL}/tag_articles.json`)]. *)
Definition fetchNewsByTag (fetch_tag_articles : M (Response (list TagArticles)))
    (tagId limit : Z) : M (list NewsRawItem) :=
  try_catch
    (let* response := fetch_tag_articles in
     match response with
     | NotOk _ => ret []
     | Ok tagArticles =>
         match Js.find (fun t => tag_id t =? tagId) tagArticles with
         | None => ret []
         | Some tagMapping =>
             let articleIds := Js.slice0 limit (ta_articles tagMapping) in
             let* items := promise_all (map fetchNewsRawById articleIds) in
             ret (omap (fun item => item) items)      (* items.filter(Boolean) *)
         end
     end)
    (fun error => ret []).

End WithServer.
End Client.

(* ===================================================================== *)
(** ** [reference/api.ts] and [reference/store.ts]: the store-based
       reference *)
(* ===================================================================== *)

Module Store.
Section WithServer.
Variable srv : Server.

(** The store's [newsRawCache]: items by item id. *)
Definition M := M (gmap Z NewsRawItem).

(** [reference/api.ts]: this [fetchNewsRawBatch] throws. *)
Definition fetchNewsRawBatch (startId : Z) : M (list NewsRawItem) :=
  let batchStart := (startId / 100) * 100 in
  let* response := fetch (news_raw batchStart) (raw_file srv batchStart) in
  match response with
  | NotOk status => throw (FailedToFetch (news_raw batchStart) status)
  | Ok body => ret body
  end.

(** [ids.map(id => cache.get(id)!).filter(Boolean)] *)
Definition cached_items (cache : gmap Z NewsRawItem) (ids : list Z) : list NewsRawItem :=
  omap (fun id_ => cache !! id_) ids.

Definition fetchNewsRaw (ids : list Z) : M (list NewsRawItem) :=
  let* cache := get_caches in
  let uncachedIds := List.filter (fun id_ => negb (bool_decide (is_Some (cache !! id_)))) ids in
  if (length uncachedIds =? 0)%nat then ret (cached_items cache ids)
  else
    let batchIds := Js.distinct (map getBatchId uncachedIds) in
    try_catch
      (let* batches := promise_all (map fetchNewsRawBatch batchIds) in
       let cache := fold_left (fun c item => <[id item := item]> c) (concat batches) cache in
       let* _ := set_caches cache in
       ret (cached_items cache ids))
      (fun error => ret []).

(** [searchNews(query)] of the store; [state_meta] is the store's [meta]
    field ([null] until the core data is loaded). *)
Definition searchNews (state_meta : option Meta) (query : string) : M (list NewsRawItem) :=
  if Js.blank query then ret []
  else
    match state_meta with
    | None => ret []
    | Some m =>
        let latestId := news_raw_latest_id m in
        let batchSize := 100 in
        let batches := Js.ceil_div latestId batchSize in
        let searchLower := Js.toLowerCase query in
        for_of (Js.range batches) []
          (fun results i =>
             let batchStart := i * batchSize in
             try_catch
               (let* batch := fetchNewsRawBatch batchStart in
                let filtered := List.filter (Api.matches searchLower) batch in
                ret (results ++ filtered))
               (fun error => ret results))
    end.

End WithServer.
End Store.

(* ===================================================================== *)
(** ** Reference definitions the statements compare the code with *)
(* ===================================================================== *)

(** What a request for batch [b] delivers once failures are turned into the
    empty list: the body of an ok response, nothing otherwise. *)
Definition batch_items (srv : Server) (b : Z) : list NewsRawItem :=
  match raw_file srv b with
  | Some (Ok body) => body
  | _ => []
  end.

(** The items found for a requested id: those of that id in its batch. *)
Definition found (srv : Server) (x : Z) : list NewsRawItem :=
  List.filter (fun item => id item =? x) (batch_items srv (getBatchId x)).

(** The requested ids in input order, an id requested several times kept at
    its last occurrence. *)
Fixpoint last_occurrences (ids : list Z) : list Z :=
  match ids with
  | [] => []
  | x :: ids' =>
      if Js.arr_includes ids' x then last_occurrences ids'
      else x :: last_occurrences ids'
  end.

(** The index of the last occurrence of [x] in [ids], counting from [n]. *)
Fixpoint last_index_from (n : Z) (ids : list Z) (x : Z) : option Z :=
  match ids with
  | [] => None
  | y :: ids' =>
      match last_index_from (n + 1) ids' x with
      | Some i => Some i
      | None => if x =? y then Some n else None
      end
  end.

Definition pos (n : Z) (ids : list Z) (x : Z) : Z :=
  match last_index_from n ids x with
  | Some i => i
  | None => 0
  end.

(** The order in which [fetchNewsRawByIds] must deliver: for each requested
    id in input order, the items found for it. *)
Definition in_input_order (srv : Server) (ids : list Z) : list NewsRawItem :=
  flat_map (found srv) (last_occurrences ids).

(** The items one group of [fetchNewsRawByIds] contributes. *)
Definition group_matches (srv : Server) (g : Z * list Z) : list NewsRawItem :=
  List.filter (fun item => Js.arr_includes (snd g) (id item))
    (batch_items srv (getBatchId (fst g))).

(** Every batch file holds at most one item per id. *)
Definition unique_ids (srv : Server) : Prop :=
  forall b body, raw_file srv b = Some (Ok body) -> NoDup (map id body).

Definition key_le {A} (keyf : A -> Z) (a b : A) : Prop := keyf a <= keyf b.

(** A comparator that is the difference of an integer key. *)
Definition by_key {A} (keyf : A -> Z) (a b : A) : Z := keyf a - keyf b.

(** The groups built by [fetchNewsRawByIds], in closed form: one per
    distinct batch id, holding the requested ids of that batch. *)
Definition ids_of_batch (ids : list Z) (b : Z) : Z * list Z :=
  (b, List.filter (fun x => getBatchId x =? b) ids).

(* ===================================================================== *)
(** ** Invariants of the caches and further reference definitions *)
(* ===================================================================== *)

(** The request for batch [b] is answered with an ok response. *)
Definition served (srv : Server) (b : Z) : Prop :=
  exists body, raw_file srv b = Some (Ok body).

(** Coherence of [newsRawBatchCache]: an entry under [b] is the body of the
    file [news_raw.<b>.json]. *)
Definition raw_cache_coherent (srv : Server) (c : Utils.Caches) : Prop :=
  forall b l, Utils.newsRawBatchCache c !! b = Some l -> raw_file srv b = Some (Ok l).

(** Coherence of [newsArticleCache]: an entry under key [k] is the body of
    the file of the batch of [k]. *)
Definition article_cache_coherent (srv : Server) (c : Utils.Caches) : Prop :=
  forall k l, Utils.newsArticleCache c !! k = Some l ->
              articles_file srv (getBatchId k) = Some (Ok l).

(** From [s] to [s']: no entry of [newsRawBatchCache] is lost or changed,
    and the requests added are for batches among [keys] that were not
    cached in [s]. *)
Definition raw_cache_extends (keys : list Z) (s s' : St Utils.Caches) : Prop :=
  (forall b l, Utils.newsRawBatchCache (caches s) !! b = Some l ->
               Utils.newsRawBatchCache (caches s') !! b = Some l) /\
  exists bs, requests s' = requests s ++ map news_raw bs /\
             forall b, In b bs ->
                       In b keys /\ Utils.newsRawBatchCache (caches s) !! b = None.

(** The body of an article batch file, empty when the request fails. *)
Definition article_items (srv : Server) (b : Z) : list NewsArticle :=
  match articles_file srv b with
  | Some (Ok body) => body
  | _ => []
  end.

(** The article ids listed for a tag, none when the tag has no row. *)
Definition tag_article_ids (rows : list TagArticles) (tagId : Z) : list Z :=
  match Js.find (fun t => tag_id t =? tagId) rows with
  | Some row => ta_articles row
  | None => []
  end.

(** The store's [newsRawCache] is keyed by item id. *)
Definition id_keyed (c : gmap Z NewsRawItem) : Prop :=
  forall k a, c !! k = Some a -> id a = k.

(** Predicates on slugs. *)
Fixpoint all_chars (p : ascii -> bool) (s : string) : bool :=
  match s with
  | EmptyString => true
  | String c s' => (p c && all_chars p s')%bool
  end.

Definition starts_with_dash (s : string) : bool :=
  match s with
  | String c _ => Ascii.eqb c "-"
  | EmptyString => false
  end.

Fixpoint ends_with_dash (s : string) : bool :=
  match s with
  | EmptyString => false
  | String c EmptyString => Ascii.eqb c "-"
  | String _ s' => ends_with_dash s'
  end.

Definition slug_or_dash (c : ascii) : bool :=
  (Utils.is_slug_char c || Ascii.eqb c "-")%bool.

(** The first item of id [x] in the batch of [x]. *)
Definition first_match (srv : Server) (x : Z) : option NewsRawItem :=
  Js.find (fun item => id item =? x) (batch_items srv (getBatchId x)).

(* ===================================================================== *)
(** ** A sample server *)
(* ===================================================================== *)

Definition item (n : Z) (headline : string) : NewsRawItem :=
  {| id := n; source := "1"; title := headline; article := "text";
     cats := []; imgUrl := ""; cluster_id := 0; created_at := "2026-01-01";
     guid := "" |}.

Definition cluster (n : Z) : NewsArticle :=
  {| a_id := n; a_title := "topic"; short_desc := ""; articles := [];
     a_created_at := "2026-01-01"; a_cats := [] |}.

(** Batches 0, 100 and 200 exist, the request for batch 300 gets no reply,
    batch 500 is an empty file, every other batch file is missing (404); the
    latest raw item is 202. *)
Definition sample_server : Server :=
  {| raw_file := fun b =>
       if b =? 0 then Some (Ok [item 10 "ten"; item 30 "thirty"])
       else if b =? 100 then Some (Ok [item 120 "one-twenty"; item 198 "a"; item 199 "b"])
       else if b =? 200 then Some (Ok [item 200 "c"; item 201 "Breaking XYZ123"; item 202 "d"])
       else if b =? 300 then None
       else if b =? 500 then Some (Ok [])
       else Some (NotOk 404);
     articles_file := fun b =>
       if b =? 100 then Some (Ok [cluster 150]) else Some (NotOk 404);
     meta_file :=
       Some (Ok {| generated_at := "2026-01-01"; news_articles_latest_id := 150;
                   news_raw_latest_id := 202; news_sources_latest_id := 0;
                   tag_articles_latest_id := 0; tags_latest_id := 0 |}) |}.

(** The sample server with its metadata unreachable. *)
Definition sample_server_without_meta : Server :=
  {| raw_file := raw_file sample_server;
     articles_file := articles_file sample_server;
     meta_file := None |}.

Definition fresh : St unit := mkSt tt [].

Definition fresh_cached : St Utils.Caches := mkSt Utils.no_caches [].

(* ===================================================================== *)
(** * Properties *)
(* ===================================================================== *)

(** ** The batch resolver *)
Lemma getBatchId_range n : getBatchId n <= n < getBatchId n + 100.
Proof. unfold getBatchId. pose proof (Z.div_mod n 100). pose proof (Z.mod_pos_bound n 100). lia. Qed.

Lemma getBatchId_unique n b q :
  b = q * 100 -> b <= n < b + 100 -> getBatchId n = b.
Proof.
  intros -> H. unfold getBatchId. f_equal.
  symmetry. apply (Z.div_unique n 100 q (n - q * 100)); lia.
Qed.

(** C9: the batch id of [n] is [floor(n/100) * 100], the multiple of 100
    at the lower bound of the batch holding [n] (a total function on the
    integers, so it has no failure mode), and re-applying it to a batch id
    plus any offset [k] with [0 <= k < 100] gives the same batch id. *)
Theorem getBatchId_floor_idempotent (n k : Z) :
  0 <= k < 100 ->
  getBatchId n = 100 * (n / 100) /\
  getBatchId n <= n < getBatchId n + 100 /\
  getBatchId (getBatchId n + k) = getBatchId n.
Proof.
  intros Hk. split; [unfold getBatchId; lia|].
  split; [apply getBatchId_range|].
  apply (getBatchId_unique _ _ (n / 100)); [reflexivity | lia].
Qed.

Lemma getBatchId_floor_idempotent_witness :
  0 <= 42 < 100 /\
  getBatchId 207 = 100 * (207 / 100) /\
  getBatchId 207 <= 207 < getBatchId 207 + 100 /\
  getBatchId (getBatchId 207 + 42) = getBatchId 207.
Proof.
  split; [lia|]. apply (getBatchId_floor_idempotent 207 42). lia.
Defined.

(** ** The stable sort *)

Section StableSort.
Context {A : Type} (keyf : A -> Z).

Lemma insert_In x l a : In a (Js.insert (by_key keyf) x l) <-> a = x \/ In a l.
Proof.
  induction l as [|y l IH]; simpl.
  - intuition congruence.
  - destruct (by_key keyf x y <=? 0); simpl; [intuition congruence|].
    rewrite IH. intuition congruence.
Qed.

Lemma sort_In l a : In a (Js.sort (by_key keyf) l) <-> In a l.
Proof.
  induction l as [|x l IH]; simpl; [tauto|].
  rewrite insert_In, IH. intuition congruence.
Qed.

Lemma insert_sorted x l :
  StronglySorted (key_le keyf) l -> StronglySorted (key_le keyf) (Js.insert (by_key keyf) x l).
Proof.
  induction 1 as [|y l Hl IH Hy]; simpl.
  - repeat constructor.
  - destruct (Z.leb_spec (by_key keyf x y) 0) as [Hle|Hgt]; unfold by_key in *.
    + constructor; [constructor; assumption|].
      constructor; [unfold key_le; lia|].
      rewrite List.Forall_forall in *. intros z Hz. specialize (Hy z Hz).
      unfold key_le in *. lia.
    + constructor; [assumption|].
      rewrite List.Forall_forall in *. intros z Hz.
      apply insert_In in Hz as [->|Hz]; [unfold key_le; lia | auto].
Qed.

Lemma sort_sorted l : StronglySorted (key_le keyf) (Js.sort (by_key keyf) l).
Proof.
  induction l as [|x l IH]; simpl; [constructor | apply insert_sorted, IH].
Qed.

(** Stability: elements selected by a predicate that determines the key
    keep their order. *)
Lemma insert_filter (p : A -> bool) x l :
  (forall a b, p a = true -> p b = true -> keyf a = keyf b) ->
  List.filter p (Js.insert (by_key keyf) x l) = List.filter p (x :: l).
Proof.
  intros Hp. induction l as [|y l IH]; [reflexivity|].
  simpl Js.insert.
  destruct (Z.leb_spec (by_key keyf x y) 0) as [Hle|Hgt]; [reflexivity|].
  simpl in *. rewrite IH.
  destruct (p x) eqn:Hx, (p y) eqn:Hy; try reflexivity.
  unfold by_key in Hgt. specialize (Hp x y Hx Hy). lia.
Qed.

Lemma sort_filter (p : A -> bool) l :
  (forall a b, p a = true -> p b = true -> keyf a = keyf b) ->
  List.filter p (Js.sort (by_key keyf) l) = List.filter p l.
Proof.
  intros Hp. induction l as [|x l IH]; [reflexivity|].
  simpl Js.sort. rewrite insert_filter by assumption.
  simpl. rewrite IH. reflexivity.
Qed.

End StableSort.

(** Two lists sorted by a key of the id, with the same items per id in the
    same order, are equal when distinct ids have distinct keys. *)
Lemma sorted_by_id_unique (kf : Z -> Z) (l1 : list NewsRawItem) :
  forall l2,
    StronglySorted (key_le (fun a => kf (id a))) l1 ->
    StronglySorted (key_le (fun a => kf (id a))) l2 ->
    (forall a b, In a (l1 ++ l2) -> In b (l1 ++ l2) ->
                 kf (id a) = kf (id b) -> id a = id b) ->
    (forall x, List.filter (fun a => id a =? x) l1 = List.filter (fun a => id a =? x) l2) ->
    l1 = l2.
Proof.
  induction l1 as [|a l1 IH]; intros l2 S1 S2 Hinj Hf.
  - destruct l2 as [|b l2]; [reflexivity|].
    specialize (Hf (id b)). simpl in Hf. rewrite Z.eqb_refl in Hf. discriminate.
  - destruct l2 as [|b l2].
    { specialize (Hf (id a)). simpl in Hf. rewrite Z.eqb_refl in Hf. discriminate. }
    apply StronglySorted_inv in S1 as [S1 Ha].
    apply StronglySorted_inv in S2 as [S2 Hb].
    rewrite List.Forall_forall in Ha, Hb.
    assert (Hid : id a = id b).
    { destruct (Z.eq_dec (id a) (id b)) as [|Hne]; [assumption|].
      apply Hinj; [simpl; auto | apply in_or_app; right; simpl; auto |].
      assert (Hab : In a l2).
      { pose proof (Hf (id a)) as H. simpl in H. rewrite Z.eqb_refl in H.
        destruct (Z.eqb_spec (id b) (id a)); [congruence|].
        assert (Hin : In a (List.filter (fun a0 => id a0 =? id a) l2))
          by (rewrite <- H; simpl; auto).
        apply filter_In in Hin. tauto. }
      assert (Hba : In b l1).
      { pose proof (Hf (id b)) as H. simpl in H. rewrite Z.eqb_refl in H.
        destruct (Z.eqb_spec (id a) (id b)); [congruence|].
        assert (Hin : In b (List.filter (fun a0 => id a0 =? id b) l1))
          by (rewrite H; simpl; auto).
        apply filter_In in Hin. tauto. }
      specialize (Ha b Hba). specialize (Hb a Hab). unfold key_le in *. lia. }
    assert (a = b) as <-.
    { pose proof (Hf (id a)) as H. simpl in H.
      rewrite <- Hid, Z.eqb_refl in H. congruence. }
    f_equal. apply IH; try assumption.
    + intros x y Hx Hy. apply Hinj; apply in_app_or in Hx, Hy; apply in_or_app; simpl; tauto.
    + intros x. specialize (Hf x). simpl in Hf.
      destruct (id a =? x); congruence.
Qed.

(** ** Sets and maps of the grouping loop *)

Lemma arr_includes_In l x : Js.arr_includes l x = true <-> In x l.
Proof.
  unfold Js.arr_includes. rewrite existsb_exists. split.
  - intros (y & Hy & Heq). apply Z.eqb_eq in Heq. congruence.
  - intros H. exists x. split; [assumption | apply Z.eqb_refl].
Qed.

Lemma arr_includes_false l x : Js.arr_includes l x = false <-> ~ In x l.
Proof.
  rewrite <- arr_includes_In. destruct (Js.arr_includes l x); intuition congruence.
Qed.

Lemma distinct_snoc l x : Js.distinct (l ++ [x]) = Js.set_add (Js.distinct l) x.
Proof. unfold Js.distinct. rewrite fold_left_app. reflexivity. Qed.

Lemma distinct_In l x : In x (Js.distinct l) <-> In x l.
Proof.
  induction l as [|y l IH] using rev_ind; [simpl; tauto|].
  rewrite distinct_snoc, in_app_iff. unfold Js.set_add.
  destruct (Js.arr_includes (Js.distinct l) y) eqn:E.
  - apply arr_includes_In in E. rewrite <- IH. split; [tauto|].
    intros [H|[<-|[]]]; assumption.
  - rewrite in_app_iff, IH. tauto.
Qed.

Lemma distinct_NoDup l : NoDup (Js.distinct l).
Proof.
  induction l as [|y l IH] using rev_ind; [constructor|].
  rewrite distinct_snoc. unfold Js.set_add.
  destruct (Js.arr_includes (Js.distinct l) y) eqn:E; [assumption|].
  apply arr_includes_false in E.
  apply NoDup_app; split; [assumption|]. split.
  - intros z Hz Hz'. apply list_elem_of_In in Hz, Hz'. simpl in Hz'.
    destruct Hz' as [->|[]]. contradiction.
  - repeat constructor. intros H. apply list_elem_of_In in H. destruct H.
Qed.

Lemma has_ids_of_batch ids D k :
  Js.Map.has k (map (ids_of_batch ids) D) = Js.arr_includes D k.
Proof.
  unfold Js.Map.has, Js.arr_includes. induction D as [|b D IH]; [reflexivity|].
  simpl. rewrite IH. f_equal. apply Z.eqb_sym.
Qed.

Lemma filter_snoc {A} (p : A -> bool) l x :
  List.filter p (l ++ [x]) = List.filter p l ++ (if p x then [x] else []).
Proof. rewrite List.filter_app. reflexivity. Qed.

Lemma filter_none {A} (p : A -> bool) l :
  (forall x, In x l -> p x = false) -> List.filter p l = [].
Proof.
  induction l as [|y l IH]; intros H; [reflexivity|].
  simpl. rewrite (H y) by (simpl; auto). apply IH. intros x Hx. apply H. simpl; auto.
Qed.

Lemma batchGroups_snoc ids x :
  Api.batchGroups (ids ++ [x]) = Api.group_id (Api.batchGroups ids) x.
Proof. unfold Api.batchGroups. rewrite fold_left_app. reflexivity. Qed.

(** The grouping loop computes the closed form. *)
Lemma batchGroups_closed ids :
  Api.batchGroups ids =
  map (ids_of_batch ids) (Js.distinct (map getBatchId ids)).
Proof.
  induction ids as [|x ids IH] using rev_ind; [reflexivity|].
  rewrite batchGroups_snoc, IH, (List.map_app getBatchId).
  change (map getBatchId [x]) with [getBatchId x]. rewrite distinct_snoc.
  unfold Api.group_id, Js.set_add. rewrite has_ids_of_batch.
  set (D := Js.distinct (map getBatchId ids)).
  destruct (Js.arr_includes D (getBatchId x)) eqn:E; simpl negb; cbv iota.
  - unfold Js.Map.push. rewrite map_map. apply map_ext. intros b.
    unfold ids_of_batch. simpl fst. simpl snd. rewrite filter_snoc.
    rewrite (Z.eqb_sym b). destruct (getBatchId x =? b); [reflexivity|].
    rewrite app_nil_r. reflexivity.
  - apply arr_includes_false in E.
    unfold Js.Map.set. rewrite has_ids_of_batch.
    replace (Js.arr_includes D (getBatchId x)) with false
      by (symmetry; apply arr_includes_false; assumption).
    unfold Js.Map.push. rewrite !map_app, map_map. f_equal.
    + apply map_ext_in. intros b Hb. unfold ids_of_batch. simpl fst.
      rewrite filter_snoc.
      destruct (Z.eqb_spec b (getBatchId x)) as [->|Hne]; [contradiction|].
      destruct (Z.eqb_spec (getBatchId x) b); [congruence|].
      rewrite app_nil_r. reflexivity.
    + simpl. rewrite Z.eqb_refl. unfold ids_of_batch. rewrite filter_snoc, Z.eqb_refl.
      rewrite filter_none; [reflexivity|].
      intros y Hy. apply Z.eqb_neq. intros Heq. apply E.
      apply distinct_In, in_map_iff. eauto.
Qed.

(** ** The index map [idOrder] *)

Lemma Map_get_set {V} k k' (v : V) m :
  Js.Map.get k (Js.Map.set k' v m) = if k =? k' then Some v else Js.Map.get k m.
Proof.
  unfold Js.Map.set, Js.Map.get, Js.Map.has.
  destruct (existsb (fun e => fst e =? k') m) eqn:Hhas.
  - induction m as [|e m IH]; [discriminate|].
    simpl in Hhas |- *.
    destruct (Z.eqb_spec (fst e) k') as [He|He]; simpl.
    + rewrite (Z.eqb_sym k' k).
      destruct (Z.eqb_spec k k') as [->|Hk].
      * reflexivity.
      * destruct (Z.eqb_spec (fst e) k); [congruence|].
        destruct (existsb (fun e0 => fst e0 =? k') m) eqn:Hm.
        -- rewrite IH by reflexivity. destruct (Z.eqb_spec k k'); [congruence|reflexivity].
        -- clear IH. induction m as [|e' m IHm]; [reflexivity|].
           simpl in Hm |- *. apply orb_false_elim in Hm as [He' Hm].
           rewrite He'. destruct (fst e' =? k); [reflexivity|]. apply IHm, Hm.
    + destruct (Z.eqb_spec (fst e) k) as [Hek|Hek].
      * destruct (Z.eqb_spec k k'); [congruence|reflexivity].
      * apply IH, Hhas.
  - induction m as [|e m IH]; simpl in Hhas |- *.
    + rewrite (Z.eqb_sym k' k). destruct (k =? k'); reflexivity.
    + apply orb_false_elim in Hhas as [He Hm].
      destruct (Z.eqb_spec (fst e) k) as [Hek|Hek].
      * destruct (Z.eqb_spec k k') as [->|]; [|reflexivity].
        rewrite Hek, Z.eqb_refl in He. discriminate.
      * apply IH, Hm.
Qed.

Lemma get_fold_set ids : forall n m x,
  Js.Map.get x
    (fold_left (fun m e => Js.Map.set (fst e) (snd e) m) (Js.with_index_from n ids) m) =
  match last_index_from n ids x with
  | Some i => Some i
  | None => Js.Map.get x m
  end.
Proof.
  induction ids as [|y ids IH]; intros n m x; [reflexivity|].
  simpl. rewrite IH, Map_get_set. simpl.
  destruct (last_index_from (n + 1) ids x); [reflexivity|].
  destruct (x =? y); reflexivity.
Qed.

Lemma position_idOrder ids x :
  Api.position (Js.Map.of_entries (Js.with_index ids)) x = pos 0 ids x.
Proof.
  unfold Api.position, Js.Map.of_entries, Js.with_index, pos.
  rewrite get_fold_set. destruct (last_index_from 0 ids x); reflexivity.
Qed.

Lemma last_index_Some ids : forall n x i,
  last_index_from n ids x = Some i ->
  n <= i < n + Z.of_nat (length ids) /\ nth_error ids (Z.to_nat (i - n)) = Some x.
Proof.
  induction ids as [|y ids IH]; intros n x i H; [discriminate|].
  simpl in H. destruct (last_index_from (n + 1) ids x) as [j|] eqn:E.
  - injection H as <-. apply IH in E as [Hb Hn]. split; [simpl length; lia|].
    replace (Z.to_nat (j - n)) with (S (Z.to_nat (j - (n + 1)))) by lia.
    exact Hn.
  - destruct (Z.eqb_spec x y) as [->|]; [|discriminate].
    injection H as <-. split; [simpl length; lia|].
    replace (n - n) with 0 by lia. reflexivity.
Qed.

Lemma last_index_In ids : forall n x,
  In x ids -> exists i, last_index_from n ids x = Some i.
Proof.
  induction ids as [|y ids IH]; intros n x H; [destruct H|].
  simpl. destruct (last_index_from (n + 1) ids x) as [j|] eqn:E; [eauto|].
  destruct H as [->|H].
  - rewrite Z.eqb_refl. eauto.
  - destruct (IH (n + 1) x H) as [i Hi]. congruence.
Qed.

Lemma last_index_notin ids : forall n x,
  ~ In x ids -> last_index_from n ids x = None.
Proof.
  intros n x H. destruct (last_index_from n ids x) as [i|] eqn:E; [|reflexivity].
  apply last_index_Some in E as [_ E]. apply nth_error_In in E. contradiction.
Qed.

(** ** The requested ids, duplicates removed *)

Lemma last_occurrences_In ids x : In x (last_occurrences ids) <-> In x ids.
Proof.
  induction ids as [|y ids IH]; simpl; [tauto|].
  destruct (Js.arr_includes ids y) eqn:E.
  - apply arr_includes_In in E. rewrite IH. intuition congruence.
  - simpl. rewrite IH. tauto.
Qed.

Lemma last_occurrences_NoDup ids : NoDup (last_occurrences ids).
Proof.
  induction ids as [|y ids IH]; simpl; [constructor|].
  destruct (Js.arr_includes ids y) eqn:E; [assumption|].
  apply arr_includes_false in E. constructor; [|assumption].
  rewrite list_elem_of_In, last_occurrences_In. assumption.
Qed.

Lemma last_occurrences_sublist ids : sublist (last_occurrences ids) ids.
Proof.
  induction ids as [|y ids IH]; simpl; [constructor|].
  destruct (Js.arr_includes ids y); constructor; assumption.
Qed.

Lemma last_occurrences_NoDup_id ids : NoDup ids -> last_occurrences ids = ids.
Proof.
  induction 1 as [|y ids Hy Hnd IH]; simpl; [reflexivity|].
  rewrite list_elem_of_In in Hy. apply arr_includes_false in Hy.
  rewrite Hy, IH. reflexivity.
Qed.

Lemma pos_cons_In n y ids x : In x ids -> pos n (y :: ids) x = pos (n + 1) ids x.
Proof.
  intros H. unfold pos. simpl.
  destruct (last_index_In ids (n + 1) x H) as [i ->]. reflexivity.
Qed.

Lemma pos_cons_new n y ids : ~ In y ids -> pos n (y :: ids) y = n.
Proof.
  intros H. unfold pos. simpl.
  rewrite (last_index_notin ids (n + 1) y H), Z.eqb_refl. reflexivity.
Qed.

Lemma pos_lower n ids x : In x ids -> n <= pos n ids x.
Proof.
  intros H. unfold pos. destruct (last_index_In ids n x H) as [i Hi].
  rewrite Hi. apply last_index_Some in Hi. lia.
Qed.

Lemma pos_inj n ids x y :
  In x ids -> In y ids -> pos n ids x = pos n ids y -> x = y.
Proof.
  intros Hx Hy. unfold pos.
  destruct (last_index_In ids n x Hx) as [i Hi].
  destruct (last_index_In ids n y Hy) as [j Hj].
  rewrite Hi, Hj. intros ->.
  apply last_index_Some in Hi as [_ Hi]. apply last_index_Some in Hj as [_ Hj].
  congruence.
Qed.

(** ** Sorted lists *)

Section Sorted.
Context {A : Type}.

Lemma StronglySorted_on (R R' : A -> A -> Prop) l :
  StronglySorted R l ->
  (forall a b, In a l -> In b l -> R a b -> R' a b) ->
  StronglySorted R' l.
Proof.
  induction 1 as [|a l Hl IH Ha]; intros H; constructor.
  - apply IH. intros x y Hx Hy. apply H; simpl; auto.
  - rewrite List.Forall_forall in *. intros x Hx.
    apply H; simpl; auto.
Qed.

Lemma StronglySorted_all (R : A -> A -> Prop) l :
  (forall a b, In a l -> In b l -> R a b) -> StronglySorted R l.
Proof.
  induction l as [|a l IH]; intros H; constructor.
  - apply IH. intros x y Hx Hy. apply H; simpl; auto.
  - rewrite List.Forall_forall. intros x Hx. apply H; simpl; auto.
Qed.

Lemma StronglySorted_append (R : A -> A -> Prop) l1 l2 :
  StronglySorted R l1 -> StronglySorted R l2 ->
  (forall a b, In a l1 -> In b l2 -> R a b) ->
  StronglySorted R (l1 ++ l2).
Proof.
  induction 1 as [|a l1 Hl IH Ha]; intros H2 H; [assumption|].
  simpl. constructor.
  - apply IH; [assumption|]. intros x y Hx Hy. apply H; simpl; auto.
  - rewrite List.Forall_forall in *. intros x Hx.
    apply in_app_or in Hx as [Hx|Hx]; [auto | apply H; simpl; auto].
Qed.
End Sorted.

(** ** Filters over the fetched items *)

Lemma filter_flat_map {A B} (p : B -> bool) (f : A -> list B) l :
  List.filter p (flat_map f l) = flat_map (fun a => List.filter p (f a)) l.
Proof.
  induction l as [|a l IH]; [reflexivity|].
  simpl. rewrite List.filter_app, IH. reflexivity.
Qed.

Lemma filter_filter_keep {A} (p q : A -> bool) l :
  (forall a, p a = true -> q a = true) ->
  List.filter p (List.filter q l) = List.filter p l.
Proof.
  intros H. induction l as [|a l IH]; [reflexivity|].
  simpl. destruct (q a) eqn:Hq; simpl.
  - rewrite IH. reflexivity.
  - destruct (p a) eqn:Hp; [rewrite (H a Hp) in Hq; discriminate | exact IH].
Qed.

Lemma filter_filter_drop {A} (p q : A -> bool) l :
  (forall a, p a = true -> q a = false) ->
  List.filter p (List.filter q l) = [].
Proof.
  intros H. apply filter_none. intros a Ha. apply filter_In in Ha as [_ Hq].
  destruct (p a) eqn:Hp; [rewrite (H a Hp) in Hq; discriminate | reflexivity].
Qed.

Lemma flat_map_single {B} (z : Z) (L : list B) D :
  NoDup D ->
  flat_map (fun b => if z =? b then L else []) D = if Js.arr_includes D z then L else [].
Proof.
  induction 1 as [|b D Hb Hnd IH]; [reflexivity|].
  rewrite list_elem_of_In in Hb. simpl. rewrite IH.
  destruct (Z.eqb_spec z b) as [->|Hne]; simpl.
  - apply arr_includes_false in Hb. rewrite Hb. apply app_nil_r.
  - reflexivity.
Qed.

Lemma arr_includes_filter (p : Z -> bool) l x :
  Js.arr_includes (List.filter p l) x = (Js.arr_includes l x && p x)%bool.
Proof.
  apply eq_true_iff_eq. rewrite andb_true_iff, !arr_includes_In, filter_In. tauto.
Qed.

Lemma arr_includes_ext l l' x :
  (In x l <-> In x l') -> Js.arr_includes l x = Js.arr_includes l' x.
Proof. intros H. apply eq_true_iff_eq. rewrite !arr_includes_In. exact H. Qed.

Lemma getBatchId_idem n : getBatchId (getBatchId n) = getBatchId n.
Proof.
  apply (getBatchId_unique _ _ (n / 100)); [reflexivity|].
  unfold getBatchId. lia.
Qed.

(** The items of id [x] among the results gathered from the groups. *)
Lemma filter_id_groups srv ids x :
  List.filter (fun a => id a =? x)
    (flat_map (group_matches srv) (map (ids_of_batch ids) (Js.distinct (map getBatchId ids)))) =
  if Js.arr_includes ids x then found srv x else [].
Proof.
  rewrite flat_map_concat_map, map_map, <- flat_map_concat_map, filter_flat_map.
  rewrite (flat_map_ext _
             (fun b => if getBatchId x =? b
                       then (if Js.arr_includes ids x then found srv x else [])
                       else [])).
  - rewrite flat_map_single by apply distinct_NoDup.
    destruct (Js.arr_includes ids x) eqn:E.
    + replace (Js.arr_includes (Js.distinct (map getBatchId ids)) (getBatchId x)) with true;
        [reflexivity|].
      symmetry. apply arr_includes_In, distinct_In, in_map, arr_includes_In, E.
    + destruct (Js.arr_includes (Js.distinct _) _); reflexivity.
  - intros b. unfold group_matches, ids_of_batch. simpl fst. simpl snd.
    destruct (Z.eqb_spec (getBatchId x) b) as [<-|Hne].
    + rewrite getBatchId_idem. destruct (Js.arr_includes ids x) eqn:E.
      * apply filter_filter_keep. intros a Ha. apply Z.eqb_eq in Ha. rewrite Ha.
        rewrite arr_includes_filter, E, Z.eqb_refl. reflexivity.
      * apply filter_filter_drop. intros a Ha. apply Z.eqb_eq in Ha. rewrite Ha.
        rewrite arr_includes_filter, E. reflexivity.
    + apply filter_filter_drop. intros a Ha. apply Z.eqb_eq in Ha. rewrite Ha.
      rewrite arr_includes_filter. apply Z.eqb_neq in Hne. rewrite Hne.
      apply andb_false_r.
Qed.

(** The items of id [x] in the list in input order. *)
Lemma filter_id_in_input_order srv ids x :
  List.filter (fun a => id a =? x) (in_input_order srv ids) =
  if Js.arr_includes ids x then found srv x else [].
Proof.
  unfold in_input_order. rewrite filter_flat_map.
  rewrite (flat_map_ext _ (fun y => if x =? y then found srv x else [])).
  - rewrite flat_map_single by apply last_occurrences_NoDup.
    rewrite (arr_includes_ext _ ids) by apply last_occurrences_In. reflexivity.
  - intros y. unfold found. destruct (Z.eqb_spec x y) as [<-|Hne].
    + apply filter_filter_keep. auto.
    + apply filter_filter_drop. intros a Ha. apply Z.eqb_eq in Ha.
      apply Z.eqb_neq. congruence.
Qed.

Lemma found_id srv x a : In a (found srv x) -> id a = x.
Proof. unfold found. rewrite filter_In. intros [_ H]. apply Z.eqb_eq, H. Qed.

Lemma in_input_order_id srv ids a :
  In a (in_input_order srv ids) -> In (id a) ids.
Proof.
  unfold in_input_order. rewrite in_flat_map. intros (x & Hx & Ha).
  apply found_id in Ha as ->. apply last_occurrences_In, Hx.
Qed.

Lemma in_input_order_sorted srv ids : forall n,
  StronglySorted (key_le (fun a => pos n ids (id a))) (in_input_order srv ids).
Proof.
  unfold in_input_order.
  induction ids as [|y ids IH]; intros n; [constructor|].
  simpl. destruct (Js.arr_includes ids y) eqn:E.
  - apply (StronglySorted_on _ _ _ (IH (n + 1))).
    intros a b Ha Hb. apply in_input_order_id in Ha, Hb.
    unfold key_le. rewrite !pos_cons_In by assumption. auto.
  - apply arr_includes_false in E. simpl.
    apply StronglySorted_append.
    + apply StronglySorted_all. intros a b Ha Hb.
      apply found_id in Ha, Hb. unfold key_le. rewrite Ha, Hb. lia.
    + apply (StronglySorted_on _ _ _ (IH (n + 1))).
      intros a b Ha Hb. apply in_input_order_id in Ha, Hb.
      unfold key_le. rewrite !pos_cons_In by assumption. auto.
    + intros a b Ha Hb. apply found_id in Ha. apply in_input_order_id in Hb.
      unfold key_le. rewrite Ha, pos_cons_new by assumption.
      rewrite pos_cons_In by assumption. pose proof (pos_lower (n + 1) ids _ Hb). lia.
Qed.

(** ** [fetchNewsRawBatch] and [fetchNewsRawByIds] of [api.ts] *)

Lemma st_eta {C} (s : St C) : mkSt (caches s) (requests s) = s.
Proof. destruct s; reflexivity. Qed.

Lemma fetchNewsRawBatch_run srv startId s :
  Api.fetchNewsRawBatch srv startId s =
  (Returned (batch_items srv (getBatchId startId)),
   mkSt (caches s) (requests s ++ [news_raw (getBatchId startId)])).
Proof.
  unfold Api.fetchNewsRawBatch, try_catch, bind, fetch, batch_items, ret.
  destruct (raw_file srv (getBatchId startId)) as [[body|status]|]; reflexivity.
Qed.

Lemma fetch_groups_run srv groups : forall acc s,
  for_of groups acc
    (fun results group =>
       let '(batchId, idsInBatch) := group in
       let* batch := Api.fetchNewsRawBatch srv batchId in
       let items := List.filter (fun item => Js.arr_includes idsInBatch (id item)) batch in
       ret (results ++ items)) s =
  (Returned (acc ++ flat_map (group_matches srv) groups),
   mkSt (caches s) (requests s ++ map (fun g => news_raw (getBatchId (fst g))) groups)).
Proof.
  induction groups as [|[b l] groups IH]; intros acc s.
  - simpl. unfold ret. rewrite !app_nil_r, st_eta. reflexivity.
  - simpl for_of. unfold bind at 1. unfold bind at 1.
    rewrite fetchNewsRawBatch_run. unfold ret at 1. rewrite IH.
    simpl. rewrite <- !app_assoc. reflexivity.
Qed.

Lemma batch_keys_idem ids b :
  In b (Js.distinct (map getBatchId ids)) -> getBatchId b = b.
Proof.
  rewrite distinct_In, in_map_iff. intros (x & <- & _). apply getBatchId_idem.
Qed.

Lemma batch_keys_requests ids :
  map (fun g => news_raw (getBatchId (fst g)))
      (map (ids_of_batch ids) (Js.distinct (map getBatchId ids))) =
  map news_raw (Js.distinct (map getBatchId ids)).
Proof.
  rewrite map_map. apply map_ext_in. intros b Hb. simpl.
  rewrite (batch_keys_idem ids b Hb). reflexivity.
Qed.

(** The gathered results, sorted by [idOrder], are the items in input
    order. *)
Lemma sort_results srv ids :
  Js.sort (Api.by_id_order (Js.Map.of_entries (Js.with_index ids)))
    (flat_map (group_matches srv) (Api.batchGroups ids)) =
  in_input_order srv ids.
Proof.
  set (idOrder := Js.Map.of_entries (Js.with_index ids)).
  set (results := flat_map (group_matches srv) (Api.batchGroups ids)).
  change (Api.by_id_order idOrder)
    with (by_key (fun a : NewsRawItem => Api.position idOrder (id a))).
  assert (Hfilter : forall x,
    List.filter (fun a => id a =? x) results =
    if Js.arr_includes ids x then found srv x else []).
  { intros x. unfold results. rewrite batchGroups_closed. apply filter_id_groups. }
  assert (Hids : forall a, In a results -> In (id a) ids).
  { intros a Ha. specialize (Hfilter (id a)).
    assert (Hin : In a (List.filter (fun a0 => id a0 =? id a) results))
      by (apply filter_In; split; [assumption | apply Z.eqb_refl]).
    rewrite Hfilter in Hin.
    destruct (Js.arr_includes ids (id a)) eqn:E; [|destruct Hin].
    apply arr_includes_In, E. }
  apply (sorted_by_id_unique (Api.position idOrder)).
  - apply sort_sorted.
  - apply (StronglySorted_on _ _ _ (in_input_order_sorted srv ids 0)).
    intros a b _ _. unfold key_le, idOrder. rewrite !position_idOrder. auto.
  - intros a b Ha Hb. unfold idOrder. rewrite !position_idOrder.
    apply pos_inj.
    + apply in_app_or in Ha as [Ha|Ha];
        [apply sort_In in Ha; auto | apply in_input_order_id in Ha; assumption].
    + apply in_app_or in Hb as [Hb|Hb];
        [apply sort_In in Hb; auto | apply in_input_order_id in Hb; assumption].
  - intros x. rewrite sort_filter.
    + rewrite Hfilter, filter_id_in_input_order. reflexivity.
    + intros a b Ha Hb. apply Z.eqb_eq in Ha, Hb. congruence.
Qed.

(** What a call of [fetchNewsRawByIds] returns and which requests it
    sends. *)
Lemma fetchNewsRawByIds_run srv ids s :
  Api.fetchNewsRawByIds srv ids s =
  (Returned (in_input_order srv ids),
   mkSt (caches s) (requests s ++ map news_raw (Js.distinct (map getBatchId ids)))).
Proof.
  unfold Api.fetchNewsRawByIds. destruct ids as [|x ids].
  - simpl. unfold ret. rewrite app_nil_r, st_eta. reflexivity.
  - change (length (x :: ids) =? 0)%nat with false. cbv iota.
    unfold bind at 1. rewrite fetch_groups_run. unfold ret.
    rewrite app_nil_l, sort_results.
    rewrite batchGroups_closed, batch_keys_requests. reflexivity.
Qed.

(** ** [fetchNewsRawByIds] of [main.js] *)

Lemma client_groups_run srv groups : forall acc (s : St unit),
  for_of groups acc
    (fun results group =>
       let '(batchId, idsInBatch) := group in
       try_catch
         (let* response := fetch (news_raw batchId) (raw_file srv batchId) in
          match response with
          | NotOk _ => ret results
          | Ok batch =>
              let items :=
                List.filter (fun item => Js.arr_includes idsInBatch (id item)) batch in
              ret (results ++ items)
          end)
         (fun error => ret results)) s =
  (Returned
     (acc ++ flat_map
               (fun g => List.filter (fun item => Js.arr_includes (snd g) (id item))
                           (batch_items srv (fst g))) groups),
   mkSt (caches s) (requests s ++ map (fun g => news_raw (fst g)) groups)).
Proof.
  induction groups as [|[b l] groups IH]; intros acc s.
  - simpl. unfold ret. rewrite !app_nil_r, st_eta. reflexivity.
  - simpl for_of. unfold bind at 1.
    unfold try_catch at 1, bind at 1, fetch at 1.
    pose proof (eq_refl (batch_items srv b)) as Hb. unfold batch_items at 2 in Hb.
    destruct (raw_file srv b) as [[body|status]|]; unfold ret at 1; rewrite IH;
      simpl; rewrite Hb; simpl; rewrite <- ?app_assoc, ?app_nil_r; reflexivity.
Qed.

(** The browser client computes what the build-time accessor computes. *)
Lemma client_fetchNewsRawByIds_run srv ids s :
  Client.fetchNewsRawByIds srv ids s = Api.fetchNewsRawByIds srv ids s.
Proof.
  unfold Client.fetchNewsRawByIds, Api.fetchNewsRawByIds.
  destruct (length ids =? 0)%nat; [reflexivity|].
  change (fold_left Client.group_id ids []) with (Api.batchGroups ids).
  unfold bind at 1 3. rewrite client_groups_run, fetch_groups_run.
  rewrite batchGroups_closed.
  set (D := Js.distinct (map getBatchId ids)).
  assert (Hitems :
    flat_map (fun g => List.filter (fun item => Js.arr_includes (snd g) (id item))
                         (batch_items srv (fst g))) (map (ids_of_batch ids) D) =
    flat_map (group_matches srv) (map (ids_of_batch ids) D)).
  { rewrite !flat_map_concat_map, !map_map. f_equal. apply map_ext_in.
    intros b Hb. unfold group_matches. simpl.
    rewrite (batch_keys_idem ids b Hb). reflexivity. }
  assert (Hreq :
    map (fun g => news_raw (fst g)) (map (ids_of_batch ids) D) =
    map (fun g => news_raw (getBatchId (fst g))) (map (ids_of_batch ids) D)).
  { rewrite !map_map. apply map_ext_in. intros b Hb. simpl.
    rewrite (batch_keys_idem ids b Hb). reflexivity. }
  rewrite Hitems, Hreq. reflexivity.
Qed.

(** ** Claims about [fetchNewsRawByIds] *)

(** C1: [fetchNewsRawByIds] (build-time and browser client alike) returns,
    for each requested id taken in the order of the input list, the items
    found for that id in its batch; an id with no matching item contributes
    nothing and the order of the others is kept.  An id requested several
    times is taken once, at its last occurrence, so the ids taken form a
    sublist of the input with the same members. *)
Theorem fetchNewsRawByIds_input_order (srv : Server) (ids : list Z) (s : St unit) :
  fst (Api.fetchNewsRawByIds srv ids s) =
    Returned (flat_map (found srv) (last_occurrences ids)) /\
  fst (Client.fetchNewsRawByIds srv ids s) =
    Returned (flat_map (found srv) (last_occurrences ids)) /\
  sublist (last_occurrences ids) ids /\
  (forall x, In x (last_occurrences ids) <-> In x ids).
Proof.
  rewrite client_fetchNewsRawByIds_run, fetchNewsRawByIds_run.
  repeat split.
  - apply last_occurrences_sublist.
  - apply last_occurrences_In.
  - apply last_occurrences_In.
Qed.

(** The example of the specification: ids 30, 10, 120 come back in that
    order, neither in batch order nor by ascending id, and a missing id (45)
    is left out. *)
Example fetchNewsRawByIds_30_10_120 :
  fst (Api.fetchNewsRawByIds sample_server [30; 10; 120] fresh) =
    Returned [item 30 "thirty"; item 10 "ten"; item 120 "one-twenty"] /\
  fst (Api.fetchNewsRawByIds sample_server [120; 45; 30; 10] fresh) =
    Returned [item 120 "one-twenty"; item 30 "thirty"; item 10 "ten"].
Proof. split; reflexivity. Qed.

(** C8: one call of [fetchNewsRawByIds] sends exactly one request per
    distinct batch id of the input ids: the requests added to the log are
    the [news_raw] files of a duplicate-free list of batch ids whose members
    are exactly the batch ids of the requested ids. *)
Theorem fetchNewsRawByIds_one_fetch_per_batch (srv : Server) (ids : list Z) (s : St unit) :
  exists batches,
    requests (snd (Api.fetchNewsRawByIds srv ids s)) = requests s ++ map news_raw batches /\
    NoDup batches /\
    (forall b, In b batches <-> exists x, In x ids /\ getBatchId x = b).
Proof.
  exists (Js.distinct (map getBatchId ids)).
  rewrite fetchNewsRawByIds_run. split; [reflexivity|].
  split; [apply distinct_NoDup|].
  intros b. rewrite distinct_In, in_map_iff. split.
  - intros (x & Hx & Hin). eauto.
  - intros (x & Hin & Hx). eauto.
Qed.

Lemma in_input_order_complete srv ids a body :
  In (id a) ids ->
  raw_file srv (getBatchId (id a)) = Some (Ok body) ->
  In a body ->
  In a (in_input_order srv ids).
Proof.
  intros Hid Hb Ha. unfold in_input_order. apply in_flat_map.
  exists (id a). split; [apply last_occurrences_In, Hid|].
  unfold found, batch_items. rewrite Hb. apply filter_In.
  split; [assumption | apply Z.eqb_refl].
Qed.

(** [api.ts] and [main.js] degrade: when the request for the batch of a
    requested id fails (no reply, or a response that is not ok),
    [fetchNewsRawByIds] still returns, and its result holds every item of a
    requested id that lies in a batch whose request succeeded. *)
Lemma fetchNewsRawByIds_survives_failed_batch
    (srv : Server) (ids : list Z) (s : St unit) (bad : Z) :
  In bad ids ->
  (forall body, raw_file srv (getBatchId bad) <> Some (Ok body)) ->
  exists out,
    fst (Api.fetchNewsRawByIds srv ids s) = Returned out /\
    fst (Client.fetchNewsRawByIds srv ids s) = Returned out /\
    (forall a body,
        In (id a) ids ->
        raw_file srv (getBatchId (id a)) = Some (Ok body) ->
        In a body ->
        In a out).
Proof.
  intros _ _. exists (in_input_order srv ids).
  rewrite client_fetchNewsRawByIds_run, fetchNewsRawByIds_run.
  split; [reflexivity|]. split; [reflexivity|].
  intros a body. apply in_input_order_complete.
Qed.

Lemma fetchNewsRawByIds_survives_failed_batch_sample :
  In 350 [30; 350; 120] /\
  (forall body, raw_file sample_server (getBatchId 350) <> Some (Ok body)) /\
  exists out,
    fst (Api.fetchNewsRawByIds sample_server [30; 350; 120] fresh) = Returned out /\
    fst (Client.fetchNewsRawByIds sample_server [30; 350; 120] fresh) = Returned out /\
    (forall a body,
        In (id a) [30; 350; 120] ->
        raw_file sample_server (getBatchId (id a)) = Some (Ok body) ->
        In a body ->
        In a out).
Proof.
  assert (H1 : In 350 [30; 350; 120]) by (simpl; auto).
  assert (H2 : forall body, raw_file sample_server (getBatchId 350) <> Some (Ok body))
    by (intros body; simpl; discriminate).
  split; [exact H1|]. split; [exact H2|].
  exact (fetchNewsRawByIds_survives_failed_batch sample_server [30; 350; 120] fresh 350 H1 H2).
Defined.

(** C3 fails on the reference store: of the ids 30, 350 and 120 the batches
    0 and 100 are fetched and the request for batch 300 gets no reply;
    [fetchNewsRaw] of [reference/store.ts] sends the three requests and
    returns the empty list, dropping the items 30 and 120, which
    [fetchNewsRawByIds] of [api.ts] returns for the same input. *)
Theorem fetchNewsRaw_aborts_on_failed_batch :
  let call := Store.fetchNewsRaw sample_server [30; 350; 120] (mkSt ∅ []) in
  raw_file sample_server (getBatchId 350) = None /\
  fst call = Returned [] /\
  requests (snd call) = [news_raw 0; news_raw 300; news_raw 100] /\
  In (item 30 "thirty") (batch_items sample_server (getBatchId 30)) /\
  In (item 120 "one-twenty") (batch_items sample_server (getBatchId 120)) /\
  fst (Api.fetchNewsRawByIds sample_server [30; 350; 120] fresh) =
    Returned [item 30 "thirty"; item 120 "one-twenty"].
Proof.
  split; [reflexivity|]. split; [vm_compute; reflexivity|].
  split; [vm_compute; reflexivity|].
  split; [simpl; auto|]. split; [simpl; auto|]. reflexivity.
Qed.

(** ** Duplicate ids in the input *)

Lemma NoDup_map_filter {A B} (f : A -> B) (p : A -> bool) l :
  NoDup (map f l) -> NoDup (map f (List.filter p l)).
Proof.
  induction l as [|a l IH]; intros H; [constructor|].
  simpl in H. inversion H as [|? ? Ha Hl]; subst.
  simpl. destruct (p a); [|apply IH, Hl].
  simpl. constructor; [|apply IH, Hl].
  rewrite list_elem_of_In in *. rewrite in_map_iff in *.
  intros (b & Hb & Hin). apply Ha. exists b. split; [assumption|].
  apply filter_In in Hin. tauto.
Qed.

Lemma found_NoDup srv x : unique_ids srv -> NoDup (map id (found srv x)).
Proof.
  intros H. unfold found. apply NoDup_map_filter. unfold batch_items.
  destruct (raw_file srv (getBatchId x)) as [[body|status]|] eqn:E;
    [apply (H _ _ E) | constructor | constructor].
Qed.

Lemma flat_map_found_NoDup srv L :
  unique_ids srv -> NoDup L -> NoDup (map id (flat_map (found srv) L)).
Proof.
  intros Hu. induction 1 as [|x L Hx Hnd IH]; [constructor|].
  simpl. rewrite List.map_app. apply NoDup_app.
  split; [apply found_NoDup, Hu|]. split; [|exact IH].
  intros y Hy Hy'. rewrite list_elem_of_In in *.
  apply in_map_iff in Hy as (a & <- & Ha). apply found_id in Ha.
  apply in_map_iff in Hy' as (b & Hb & Hin).
  apply in_flat_map in Hin as (z & Hz & Hin). apply found_id in Hin.
  apply Hx. congruence.
Qed.

Lemma last_occurrences_length ids :
  (length (last_occurrences ids) <= length ids)%nat.
Proof.
  induction ids as [|y ids IH]; simpl; [lia|].
  destruct (Js.arr_includes ids y); simpl; lia.
Qed.

Lemma last_occurrences_full ids :
  length (last_occurrences ids) = length ids -> NoDup ids.
Proof.
  induction ids as [|y ids IH]; simpl; [constructor|].
  pose proof (last_occurrences_length ids).
  destruct (Js.arr_includes ids y) eqn:E; simpl; intros Hlen; [lia|].
  apply arr_includes_false in E. constructor; [|apply IH; lia].
  rewrite list_elem_of_In. assumption.
Qed.

(** C10: when every batch file holds at most one item per id, the result of
    [fetchNewsRawByIds] holds at most one item per requested id, whatever
    the number of times the id was requested: the ids of the returned items
    are pairwise distinct and are requested ids, and when the input repeats
    an id the result is strictly shorter than the input. *)
Theorem fetchNewsRawByIds_no_duplicate_items (srv : Server) (ids : list Z) (s : St unit) :
  unique_ids srv ->
  exists out,
    fst (Api.fetchNewsRawByIds srv ids s) = Returned out /\
    fst (Client.fetchNewsRawByIds srv ids s) = Returned out /\
    NoDup (map id out) /\
    (forall a, In a out -> In (id a) ids) /\
    (~ NoDup ids -> (length out < length ids)%nat).
Proof.
  intros Hu. exists (in_input_order srv ids).
  rewrite client_fetchNewsRawByIds_run, fetchNewsRawByIds_run.
  split; [reflexivity|]. split; [reflexivity|].
  assert (Hnd : NoDup (map id (in_input_order srv ids)))
    by (apply flat_map_found_NoDup; [assumption | apply last_occurrences_NoDup]).
  split; [exact Hnd|]. split; [apply in_input_order_id|].
  intros Hdup.
  assert (Hle : (length (in_input_order srv ids) <= length (last_occurrences ids))%nat).
  { rewrite <- (length_map id). apply List.NoDup_incl_length; [apply NoDup_ListNoDup, Hnd|].
    intros x Hx. apply in_map_iff in Hx as (a & <- & Ha).
    apply last_occurrences_In, in_input_order_id with srv, Ha. }
  pose proof (last_occurrences_length ids).
  destruct (Nat.eq_dec (length (last_occurrences ids)) (length ids)) as [Heq|Hne]; [|lia].
  exfalso. apply Hdup, last_occurrences_full, Heq.
Qed.

Lemma sample_server_unique_ids : unique_ids sample_server.
Proof.
  intros b body. simpl.
  destruct (b =? 0); [intros [= <-]; repeat constructor; simpl; rewrite ?list_elem_of_In; simpl; lia|].
  destruct (b =? 100); [intros [= <-]; repeat constructor; simpl; rewrite ?list_elem_of_In; simpl; lia|].
  destruct (b =? 200); [intros [= <-]; repeat constructor; simpl; rewrite ?list_elem_of_In; simpl; lia|].
  destruct (b =? 300); [discriminate|].
  destruct (b =? 500); [intros [= <-]; constructor | discriminate].
Defined.

Lemma fetchNewsRawByIds_no_duplicate_items_witness :
  unique_ids sample_server /\
  exists out,
    fst (Api.fetchNewsRawByIds sample_server [30; 10; 30] fresh) = Returned out /\
    fst (Client.fetchNewsRawByIds sample_server [30; 10; 30] fresh) = Returned out /\
    NoDup (map id out) /\
    (forall a, In a out -> In (id a) [30; 10; 30]) /\
    (~ NoDup [30; 10; 30] -> (length out < length [30; 10; 30])%nat).
Proof.
  split; [exact sample_server_unique_ids|].
  exact (fetchNewsRawByIds_no_duplicate_items sample_server [30; 10; 30] fresh
           sample_server_unique_ids).
Defined.

(** ** Failed batch requests *)

(** C5: when the request for the batch of an id gets a response that is not
    ok (404 or any other status) or no reply at all, [fetchNewsRawBatch]
    returns the empty list instead of throwing - in [api.ts], and in
    [utils.ts] when the batch is not cached - and [fetchNewsRawById] returns
    [undefined] ([null] in the browser client) for that id. *)
Theorem failed_batch_is_empty_and_not_found
    (srv : Server) (id_ : Z) (s : St unit) (u : St Utils.Caches) :
  (forall body, raw_file srv (getBatchId id_) <> Some (Ok body)) ->
  Utils.newsRawBatchCache (caches u) !! getBatchId id_ = None ->
  fst (Api.fetchNewsRawBatch srv id_ s) = Returned [] /\
  fst (Api.fetchNewsRawById srv id_ s) = Returned None /\
  fst (Client.fetchNewsRawById srv id_ s) = Returned None /\
  fst (Utils.fetchNewsRawBatch srv id_ u) = Returned [].
Proof.
  intros Hfail Hmiss.
  assert (Hb : batch_items srv (getBatchId id_) = []).
  { unfold batch_items.
    destruct (raw_file srv (getBatchId id_)) as [[body|status]|]; try reflexivity.
    destruct (Hfail body eq_refl). }
  split; [rewrite fetchNewsRawBatch_run, Hb; reflexivity|].
  split; [|split].
  - unfold Api.fetchNewsRawById, bind. rewrite fetchNewsRawBatch_run, Hb. reflexivity.
  - unfold Client.fetchNewsRawById, try_catch, bind, fetch.
    change (id_ / 100 * 100) with (getBatchId id_).
    destruct (raw_file srv (getBatchId id_)) as [[body|status]|]; try reflexivity.
    destruct (Hfail body eq_refl).
  - unfold Utils.fetchNewsRawBatch, bind, get_caches. rewrite Hmiss.
    unfold try_catch, Utils.fetchFileUncached, bind, fetch.
    destruct (raw_file srv (getBatchId id_)) as [[body|status]|]; try reflexivity.
    destruct (Hfail body eq_refl).
Qed.

Lemma failed_batch_is_empty_and_not_found_witness :
  (forall body, raw_file sample_server (getBatchId 404) <> Some (Ok body)) /\
  Utils.newsRawBatchCache (caches fresh_cached) !! getBatchId 404 = None /\
  fst (Api.fetchNewsRawBatch sample_server 404 fresh) = Returned [] /\
  fst (Api.fetchNewsRawById sample_server 404 fresh) = Returned None /\
  fst (Client.fetchNewsRawById sample_server 404 fresh) = Returned None /\
  fst (Utils.fetchNewsRawBatch sample_server 404 fresh_cached) = Returned [].
Proof.
  assert (H1 : forall body, raw_file sample_server (getBatchId 404) <> Some (Ok body))
    by (intros body; simpl; discriminate).
  assert (H2 : Utils.newsRawBatchCache (caches fresh_cached) !! getBatchId 404 = None)
    by reflexivity.
  split; [exact H1|]. split; [exact H2|].
  exact (failed_batch_is_empty_and_not_found sample_server 404 fresh fresh_cached H1 H2).
Defined.

(** ** The batch cache of [utils.ts] *)

Lemma cached_fetchNewsRawBatch_hit srv startId (s : St Utils.Caches) items :
  Utils.newsRawBatchCache (caches s) !! getBatchId startId = Some items ->
  Utils.fetchNewsRawBatch srv startId s = (Returned items, s).
Proof.
  intros H. unfold Utils.fetchNewsRawBatch, bind, get_caches. rewrite H. reflexivity.
Qed.

Lemma cached_fetchNewsRawBatch_stored srv startId (s : St Utils.Caches) body :
  Utils.newsRawBatchCache (caches s) !! getBatchId startId = None ->
  raw_file srv (getBatchId startId) = Some (Ok body) ->
  Utils.fetchNewsRawBatch srv startId s =
  (Returned body,
   mkSt (Utils.newsRawBatchCache_set (getBatchId startId) body (caches s))
        (requests s ++ [news_raw (getBatchId startId)])).
Proof.
  intros Hmiss Hok. unfold Utils.fetchNewsRawBatch, bind, get_caches. rewrite Hmiss.
  unfold try_catch, Utils.fetchFileUncached, bind, fetch. rewrite Hok. reflexivity.
Qed.

Lemma cached_fetchNewsRawBatch_failed srv startId (s : St Utils.Caches) :
  Utils.newsRawBatchCache (caches s) !! getBatchId startId = None ->
  (forall body, raw_file srv (getBatchId startId) <> Some (Ok body)) ->
  Utils.fetchNewsRawBatch srv startId s =
  (Returned [], mkSt (caches s) (requests s ++ [news_raw (getBatchId startId)])).
Proof.
  intros Hmiss Hfail. unfold Utils.fetchNewsRawBatch, bind, get_caches. rewrite Hmiss.
  unfold try_catch, Utils.fetchFileUncached, bind, fetch.
  destruct (raw_file srv (getBatchId startId)) as [[body|status]|]; try reflexivity.
  destruct (Hfail body eq_refl).
Qed.

(** C6, as stated, fails: batch 400 is missing on the sample server; the
    call returns the empty list, the cache holds no entry for 400
    afterwards, and a second call sends a second request. *)
Lemma fetchNewsRawBatch_failure_not_cached :
  let first := Utils.fetchNewsRawBatch sample_server 400 fresh_cached in
  let second := Utils.fetchNewsRawBatch sample_server 400 (snd first) in
  fst first = Returned [] /\
  Utils.newsRawBatchCache (caches (snd first)) !! getBatchId 400 <> Some [] /\
  requests (snd first) = [news_raw 400] /\
  requests (snd second) = [news_raw 400; news_raw 400].
Proof.
  repeat split. vm_compute. discriminate.
Qed.

(** C6, amended: after a call of the cached [fetchNewsRawBatch] for a batch
    that was already cached or whose request succeeds, the batch cache holds
    an entry for the batch with the returned list - also when that list is
    empty - and every later call for that batch, in any state with that
    entry, returns the stored list without sending a request.  When the
    batch is not cached and its request fails, the call returns the empty
    list and leaves the caches as they were. *)
Theorem fetchNewsRawBatch_caches_fetched_result
    (srv : Server) (startId : Z) (s : St Utils.Caches) :
  let b := getBatchId startId in
  let call := Utils.fetchNewsRawBatch srv startId s in
  (is_Some (Utils.newsRawBatchCache (caches s) !! b) \/
   (exists body, raw_file srv b = Some (Ok body)) ->
   exists items,
     fst call = Returned items /\
     Utils.newsRawBatchCache (caches (snd call)) !! b = Some items /\
     (forall s' : St Utils.Caches,
         Utils.newsRawBatchCache (caches s') !! b = Some items ->
         Utils.fetchNewsRawBatch srv startId s' = (Returned items, s'))) /\
  (Utils.newsRawBatchCache (caches s) !! b = None ->
   (forall body, raw_file srv b <> Some (Ok body)) ->
   fst call = Returned [] /\ caches (snd call) = caches s).
Proof.
  intros b call. subst b call. split.
  - intros H.
    destruct (Utils.newsRawBatchCache (caches s) !! getBatchId startId) as [items|] eqn:E.
    + exists items. rewrite (cached_fetchNewsRawBatch_hit _ _ _ _ E).
      split; [reflexivity|]. split; [exact E|].
      intros s'. apply cached_fetchNewsRawBatch_hit.
    + destruct H as [[x Hx]|[body Hbody]]; [discriminate|].
      exists body. rewrite (cached_fetchNewsRawBatch_stored _ _ _ _ E Hbody).
      split; [reflexivity|]. split; [apply lookup_insert_eq|].
      intros s'. apply cached_fetchNewsRawBatch_hit.
  - intros Hmiss Hfail. rewrite (cached_fetchNewsRawBatch_failed _ _ _ Hmiss Hfail).
    split; reflexivity.
Qed.

Lemma fetchNewsRawBatch_caches_fetched_result_witness :
  (exists body, raw_file sample_server (getBatchId 500) = Some (Ok body)) /\
  (exists items,
     fst (Utils.fetchNewsRawBatch sample_server 500 fresh_cached) = Returned items /\
     Utils.newsRawBatchCache
       (caches (snd (Utils.fetchNewsRawBatch sample_server 500 fresh_cached)))
       !! getBatchId 500 = Some items /\
     (forall s' : St Utils.Caches,
         Utils.newsRawBatchCache (caches s') !! getBatchId 500 = Some items ->
         Utils.fetchNewsRawBatch sample_server 500 s' = (Returned items, s'))) /\
  Utils.newsRawBatchCache (caches fresh_cached) !! getBatchId 400 = None /\
  (forall body, raw_file sample_server (getBatchId 400) <> Some (Ok body)) /\
  fst (Utils.fetchNewsRawBatch sample_server 400 fresh_cached) = Returned [] /\
  caches (snd (Utils.fetchNewsRawBatch sample_server 400 fresh_cached)) = caches fresh_cached.
Proof.
  assert (H1 : exists body, raw_file sample_server (getBatchId 500) = Some (Ok body))
    by (exists []; reflexivity).
  assert (H2 : Utils.newsRawBatchCache (caches fresh_cached) !! getBatchId 400 = None)
    by reflexivity.
  assert (H3 : forall body, raw_file sample_server (getBatchId 400) <> Some (Ok body))
    by (intros body; simpl; discriminate).
  split; [exact H1|].
  split; [exact (proj1 (fetchNewsRawBatch_caches_fetched_result sample_server 500 fresh_cached)
                   (or_intror H1))|].
  split; [exact H2|]. split; [exact H3|].
  exact (proj2 (fetchNewsRawBatch_caches_fetched_result sample_server 400 fresh_cached) H2 H3).
Defined.

(** ** The article cache of [utils.ts] *)

(** On a cache miss [fetchNewsArticleById] stores the fetched batch under
    the requested id, while it looks the cache up under the batch id. *)
Lemma fetchNewsArticleById_stores_under_id
    srv id_ (s : St Utils.Caches) batch a :
  Utils.newsArticleCache (caches s) !! getBatchId id_ = None ->
  articles_file srv (getBatchId id_) = Some (Ok batch) ->
  Js.find (fun a => a_id a =? id_) batch = Some a ->
  Utils.fetchNewsArticleById srv id_ s =
  (Returned (Some a),
   mkSt (Utils.newsArticleCache_set id_ batch (caches s))
        (requests s ++ [news_articles (getBatchId id_)])).
Proof.
  intros Hmiss Hok Hfind. unfold Utils.fetchNewsArticleById, bind at 1, get_caches at 1.
  rewrite Hmiss. unfold try_catch, Utils.fetchFileUncached, bind, fetch.
  rewrite Hok. unfold ret at 1. rewrite Hfind. reflexivity.
Qed.

(** C7 fails on the code: article 150 lies in batch 100; the first call
    stores the batch under key 150, which is not [getBatchId 150], the key
    100 stays absent, and a second call for the same id sends the request
    for batch 100 again. *)
Theorem fetchNewsArticleById_key_is_not_batch_id :
  let first := Utils.fetchNewsArticleById sample_server 150 fresh_cached in
  let second := Utils.fetchNewsArticleById sample_server 150 (snd first) in
  fst first = Returned (Some (cluster 150)) /\
  Utils.newsArticleCache (caches (snd first)) !! 150 = Some [cluster 150] /\
  getBatchId 150 = 100 /\
  Utils.newsArticleCache (caches (snd first)) !! getBatchId 150 = None /\
  fst second = Returned (Some (cluster 150)) /\
  requests (snd second) = [news_articles 100; news_articles 100].
Proof.
  repeat split.
Qed.

(** ** [searchNews] *)




(** C4 fails on the code: with a static-retention limit of 100 the search
    sends one request, for batch 0 - the oldest batch - although the latest
    raw item is 202; item 201 of the most recent batch matches the query and
    is not returned. *)
Theorem searchNews_scans_oldest_batches :
  meta_file sample_server <> None /\
  Api.searchNews sample_server 100 "xyz123" 50 fresh = (Returned [], mkSt tt [news_raw 0]) /\
  In (item 201 "Breaking XYZ123") (batch_items sample_server (getBatchId 202)) /\
  Api.matches (Js.toLowerCase "xyz123") (item 201 "Breaking XYZ123") = true.
Proof.
  split; [discriminate|]. split; [reflexivity|].
  split; [simpl; auto | reflexivity].
Qed.

(** ** [fetchRecentNews] *)

Lemma fetch_batches_run srv startIds : forall acc s,
  for_of startIds acc
    (fun results startId =>
       let* batch := Api.fetchNewsRawBatch srv startId in
       ret (results ++ batch)) s =
  (Returned (acc ++ flat_map (fun startId => batch_items srv (getBatchId startId)) startIds),
   mkSt (caches s) (requests s ++ map (fun startId => news_raw (getBatchId startId)) startIds)).
Proof.
  induction startIds as [|x l IH]; intros acc s.
  - simpl. unfold ret. rewrite !app_nil_r, st_eta. reflexivity.
  - simpl for_of. unfold bind at 1. unfold bind at 1.
    rewrite fetchNewsRawBatch_run. unfold ret at 1. rewrite IH.
    simpl. rewrite <- !app_assoc. reflexivity.
Qed.

(** What [fetchRecentNews] returns when the metadata is available: the
    batches holding [latestId], [latestId - 100], ..., one per started
    hundred of [limit], sorted by id descending and cut to [limit]. *)
Lemma fetchRecentNews_run srv limit s m :
  meta_file srv = Some (Ok m) ->
  Api.fetchRecentNews srv limit s =
  (Returned
     (Js.slice0 limit
        (Js.sort (fun a b => id b - id a)
           (flat_map (fun i => batch_items srv (getBatchId (news_raw_latest_id m - i * 100)))
              (Js.range (Js.ceil_div limit 100))))),
   mkSt (caches s)
     (requests s ++ meta ::
        map (fun i => news_raw (getBatchId (news_raw_latest_id m - i * 100)))
          (Js.range (Js.ceil_div limit 100)))).
Proof.
  intros Hm. unfold Api.fetchRecentNews, bind at 1.
  unfold Api.fetchMeta, Api.fetchFile, bind at 1, fetch. rewrite Hm.
  unfold ret at 1. unfold bind at 1. rewrite fetch_batches_run. unfold ret.
  rewrite app_nil_l, !flat_map_concat_map, !map_map. simpl.
  rewrite <- app_assoc. reflexivity.
Qed.

(** C2 fails on the code: the latest raw item is 202 and the items 198 and
    199 exist in batch 100, yet [fetchRecentNews 5] requests batch 200 only
    and returns three items, in [api.ts] and in [utils.ts] alike. *)
Theorem fetchRecentNews_misses_previous_batch :
  Api.fetchRecentNews sample_server 5 fresh =
    (Returned [item 202 "d"; item 201 "Breaking XYZ123"; item 200 "c"],
     mkSt tt [meta; news_raw 200]) /\
  fst (Utils.fetchRecentNews sample_server 5 fresh_cached) =
    Returned [item 202 "d"; item 201 "Breaking XYZ123"; item 200 "c"] /\
  requests (snd (Utils.fetchRecentNews sample_server 5 fresh_cached)) = [meta; news_raw 200] /\
  In (item 199 "b") (batch_items sample_server (getBatchId 199)) /\
  In (item 198 "a") (batch_items sample_server (getBatchId 198)).
Proof.
  split; [reflexivity|]. split; [vm_compute; reflexivity|].
  split; [vm_compute; reflexivity|]. split; simpl; auto.
Qed.

(* ===================================================================== *)
(** * Further properties of the accessors *)
(* ===================================================================== *)

(** ** The cached batch accessor of [utils.ts] *)

Lemma raw_cache_extends_refl keys (s : St Utils.Caches) : raw_cache_extends keys s s.
Proof.
  split; [auto|]. exists []. rewrite app_nil_r. split; [reflexivity|].
  intros b [].
Qed.

Lemma raw_cache_extends_trans keys (s1 s2 s3 : St Utils.Caches) :
  raw_cache_extends keys s1 s2 -> raw_cache_extends keys s2 s3 ->
  raw_cache_extends keys s1 s3.
Proof.
  intros [M1 (bs1 & R1 & N1)] [M2 (bs2 & R2 & N2)]. split; [auto|].
  exists (bs1 ++ bs2). rewrite R2, R1, List.map_app, app_assoc.
  split; [reflexivity|].
  intros b Hb. apply in_app_or in Hb as [Hb|Hb]; [auto|].
  destruct (N2 b Hb) as [Hk Hnone]. split; [assumption|].
  destruct (Utils.newsRawBatchCache (caches s1) !! b) as [l|] eqn:E; [|reflexivity].
  rewrite (M1 _ _ E) in Hnone. discriminate.
Qed.

Lemma raw_cache_extends_keys keys keys' (s s' : St Utils.Caches) :
  (forall b, In b keys -> In b keys') ->
  raw_cache_extends keys s s' -> raw_cache_extends keys' s s'.
Proof.
  intros Hincl [M1 (bs & R & N)]. split; [assumption|].
  exists bs. split; [assumption|]. intros b Hb. destruct (N b Hb). auto.
Qed.

(** One cached batch access under a coherent cache. *)
Lemma cached_batch_step srv startId (s : St Utils.Caches) :
  raw_cache_coherent srv (caches s) ->
  exists s',
    Utils.fetchNewsRawBatch srv startId s =
      (Returned (batch_items srv (getBatchId startId)), s') /\
    raw_cache_coherent srv (caches s') /\
    raw_cache_extends [getBatchId startId] s s' /\
    (served srv (getBatchId startId) ->
     is_Some (Utils.newsRawBatchCache (caches s') !! getBatchId startId)) /\
    (is_Some (Utils.newsRawBatchCache (caches s) !! getBatchId startId) -> s' = s).
Proof.
  intros Hco. set (b := getBatchId startId).
  destruct (Utils.newsRawBatchCache (caches s) !! b) as [l|] eqn:E.
  - exists s. rewrite (cached_fetchNewsRawBatch_hit _ _ _ _ E).
    unfold batch_items. fold b. rewrite (Hco _ _ E).
    split; [reflexivity|]. split; [exact Hco|].
    split; [apply raw_cache_extends_refl|].
    split; [intros _; rewrite E; eauto | reflexivity].
  - destruct (raw_file srv b) as [[body|status]|] eqn:F.
    + eexists. rewrite (cached_fetchNewsRawBatch_stored _ _ _ _ E F).
      unfold batch_items. fold b. rewrite F. split; [reflexivity|].
      simpl. split; [|split; [|split]].
      * intros b' l'. unfold Utils.newsRawBatchCache_set. simpl.
        rewrite lookup_insert. case_decide as Hb.
        -- intros [= <-]. subst b'. exact F.
        -- apply Hco.
      * split.
        -- intros b' l' H'. simpl. rewrite lookup_insert_ne; [assumption|].
           intros <-. rewrite E in H'. discriminate.
        -- exists [b]. split; [reflexivity|]. intros b' [<-|[]]. simpl. auto.
      * intros _. simpl. rewrite lookup_insert_eq. eauto.
      * intros [x Hx]. discriminate.
    + eexists. rewrite cached_fetchNewsRawBatch_failed;
        [|exact E | fold b; rewrite F; discriminate].
      unfold batch_items. fold b. rewrite F. split; [reflexivity|].
      simpl. split; [exact Hco|]. split; [|split].
      * split; [auto|]. exists [b]. split; [reflexivity|].
        intros b' [<-|[]]. simpl. auto.
      * intros [body Hbody]. fold b in Hbody. congruence.
      * intros [x Hx]. discriminate.
    + eexists. rewrite cached_fetchNewsRawBatch_failed;
        [|exact E | fold b; rewrite F; discriminate].
      unfold batch_items. fold b. rewrite F. split; [reflexivity|].
      simpl. split; [exact Hco|]. split; [|split].
      * split; [auto|]. exists [b]. split; [reflexivity|].
        intros b' [<-|[]]. simpl. auto.
      * intros [body Hbody]. fold b in Hbody. congruence.
      * intros [x Hx]. discriminate.
Qed.


Lemma fresh_cached_coherent srv : raw_cache_coherent srv (caches fresh_cached).
Proof. intros b l H. discriminate H. Defined.


(** ** The cached [fetchNewsRawByIds] of [utils.ts] *)

Lemma cached_groups_run srv groups : forall acc (s : St Utils.Caches),
  raw_cache_coherent srv (caches s) ->
  exists s',
    for_of groups acc
      (fun results group =>
         let '(batchId, idsInBatch) := group in
         let* batch := Utils.fetchNewsRawBatch srv batchId in
         let items := List.filter (fun item => Js.arr_includes idsInBatch (id item)) batch in
         ret (results ++ items)) s =
      (Returned (acc ++ flat_map (group_matches srv) groups), s') /\
    raw_cache_coherent srv (caches s') /\
    raw_cache_extends (map (fun g => getBatchId (fst g)) groups) s s' /\
    (forall g, In g groups -> served srv (getBatchId (fst g)) ->
               is_Some (Utils.newsRawBatchCache (caches s') !! getBatchId (fst g))).
Proof.
  induction groups as [|[b l] groups IH]; intros acc s Hco.
  - exists s. simpl. unfold ret. rewrite app_nil_r.
    split; [reflexivity|]. split; [assumption|].
    split; [apply raw_cache_extends_refl | intros g []].
  - destruct (cached_batch_step srv b s Hco) as (s1 & Hrun & Hco1 & Hext1 & Hserved & _).
    destruct (IH (acc ++ group_matches srv (b, l)) s1 Hco1)
      as (s2 & Hrun2 & Hco2 & Hext2 & Hserved2).
    exists s2. split.
    + simpl for_of. unfold bind at 1. unfold bind at 1. rewrite Hrun.
      unfold ret at 1. unfold group_matches at 1 in Hrun2. simpl fst in Hrun2.
      simpl snd in Hrun2. rewrite Hrun2. simpl. rewrite <- app_assoc. reflexivity.
    + split; [assumption|]. split.
      * apply raw_cache_extends_trans with s1.
        -- apply (raw_cache_extends_keys [getBatchId b]); [|assumption].
           intros x [<-|[]]. simpl. auto.
        -- apply (raw_cache_extends_keys (map (fun g => getBatchId (fst g)) groups));
             [|assumption].
           intros x Hx. simpl. auto.
      * intros g [<-|Hg] Hs; [|auto].
        destruct (Hserved Hs) as [l' Hl']. destruct Hext2 as [Hmono _].
        simpl. rewrite (Hmono _ _ Hl'). eauto.
Qed.

Lemma cached_groups_idle srv groups : forall acc (s : St Utils.Caches),
  raw_cache_coherent srv (caches s) ->
  (forall g, In g groups ->
             is_Some (Utils.newsRawBatchCache (caches s) !! getBatchId (fst g))) ->
  for_of groups acc
    (fun results group =>
       let '(batchId, idsInBatch) := group in
       let* batch := Utils.fetchNewsRawBatch srv batchId in
       let items := List.filter (fun item => Js.arr_includes idsInBatch (id item)) batch in
       ret (results ++ items)) s =
  (Returned (acc ++ flat_map (group_matches srv) groups), s).
Proof.
  induction groups as [|[b l] groups IH]; intros acc s Hco Hall.
  - simpl. unfold ret. rewrite app_nil_r. reflexivity.
  - destruct (cached_batch_step srv b s Hco) as (s1 & Hrun & _ & _ & _ & Hsame).
    rewrite (Hsame (Hall (b, l) (or_introl eq_refl))) in Hrun.
    simpl for_of. unfold bind at 1. unfold bind at 1. rewrite Hrun.
    unfold ret at 1. rewrite IH; [|assumption | intros g Hg; apply Hall; simpl; auto].
    simpl. rewrite <- app_assoc. reflexivity.
Qed.

Lemma batchGroups_keys ids b :
  In b (map (fun g => getBatchId (fst g)) (Api.batchGroups ids)) ->
  In b (map getBatchId ids).
Proof.
  rewrite batchGroups_closed, map_map. simpl. intros H.
  apply in_map_iff in H as (k & <- & Hk).
  rewrite (batch_keys_idem ids k Hk). apply distinct_In, Hk.
Qed.

Lemma cached_fetchNewsRawByIds_run srv ids (s : St Utils.Caches) :
  raw_cache_coherent srv (caches s) ->
  exists s',
    Utils.fetchNewsRawByIds srv ids s = (Returned (in_input_order srv ids), s') /\
    raw_cache_coherent srv (caches s') /\
    raw_cache_extends (map getBatchId ids) s s' /\
    (forall x, In x ids -> served srv (getBatchId x) ->
               is_Some (Utils.newsRawBatchCache (caches s') !! getBatchId x)).
Proof.
  intros Hco. unfold Utils.fetchNewsRawByIds. destruct ids as [|x ids].
  - exists s. split; [reflexivity|]. split; [assumption|].
    split; [apply raw_cache_extends_refl | intros y []].
  - change (length (x :: ids) =? 0)%nat with false. cbv iota.
    destruct (cached_groups_run srv (Api.batchGroups (x :: ids)) [] s Hco)
      as (s' & Hrun & Hco' & Hext & Hserved).
    exists s'. split.
    + unfold bind at 1. cbv zeta in Hrun |- *. rewrite Hrun. unfold ret.
      rewrite app_nil_l, sort_results. reflexivity.
    + split; [assumption|]. split.
      * apply (raw_cache_extends_keys _ _ _ _ (batchGroups_keys (x :: ids)) Hext).
      * intros y Hy Hs.
        assert (Hg : In (ids_of_batch (x :: ids) (getBatchId y)) (Api.batchGroups (x :: ids))).
        { rewrite batchGroups_closed. apply in_map, distinct_In, in_map, Hy. }
        specialize (Hserved _ Hg). simpl fst in Hserved.
        rewrite getBatchId_idem in Hserved. auto.
Qed.



(** X3: once a call of the cached [fetchNewsRawByIds] has returned and the
    batches of all the requested ids were served, a second call with the
    same ids returns the same list and changes nothing: no request is sent
    and the caches stay as they are. *)
Theorem cached_fetchNewsRawByIds_second_call_is_free
    (srv : Server) (ids : list Z) (s : St Utils.Caches) :
  raw_cache_coherent srv (caches s) ->
  (forall x, In x ids -> served srv (getBatchId x)) ->
  let call := Utils.fetchNewsRawByIds srv ids s in
  Utils.fetchNewsRawByIds srv ids (snd call) = (fst call, snd call).
Proof.
  intros Hco Hall call. subst call.
  destruct (cached_fetchNewsRawByIds_run srv ids s Hco) as (s' & -> & Hco' & _ & Hserved).
  simpl fst. simpl snd. unfold Utils.fetchNewsRawByIds. destruct ids as [|x ids].
  - reflexivity.
  - change (length (x :: ids) =? 0)%nat with false. cbv iota.
    unfold bind at 1. rewrite cached_groups_idle; [|assumption|].
    + unfold ret. rewrite app_nil_l, sort_results. reflexivity.
    + intros g Hg. rewrite batchGroups_closed in Hg.
      apply in_map_iff in Hg as (k & <- & Hk). simpl fst.
      apply distinct_In, in_map_iff in Hk as (y & <- & Hy).
      rewrite getBatchId_idem. auto.
Qed.

Lemma cached_fetchNewsRawByIds_second_call_is_free_witness :
  raw_cache_coherent sample_server (caches fresh_cached) /\
  (forall x, In x [30; 10; 120] -> served sample_server (getBatchId x)) /\
  let call := Utils.fetchNewsRawByIds sample_server [30; 10; 120] fresh_cached in
  Utils.fetchNewsRawByIds sample_server [30; 10; 120] (snd call) = (fst call, snd call).
Proof.
  assert (H : forall x, In x [30; 10; 120] -> served sample_server (getBatchId x)).
  { intros x [<-|[<-|[<-|[]]]]; eexists; reflexivity. }
  split; [apply fresh_cached_coherent|]. split; [exact H|].
  apply (cached_fetchNewsRawByIds_second_call_is_free sample_server [30; 10; 120] fresh_cached
           (fresh_cached_coherent sample_server) H).
Defined.

(** ** Single articles: [fetchNewsArticleById] and [fetchClusterById] *)

Lemma api_fetchNewsArticleById_run srv id_ (s : St unit) :
  Api.fetchNewsArticleById srv id_ s =
  (Returned (Js.find (fun a => a_id a =? id_) (article_items srv (getBatchId id_))),
   mkSt (caches s) (requests s ++ [news_articles (getBatchId id_)])).
Proof.
  unfold Api.fetchNewsArticleById, try_catch, Api.fetchFile, bind, fetch, article_items.
  destruct (articles_file srv (getBatchId id_)) as [[body|status]|]; reflexivity.
Qed.

(** X4: the uncached [fetchNewsArticleById] never throws and sends exactly
    one request, for the batch file of the id; an article it returns has
    the requested id and comes from that file, and it returns [undefined]
    exactly when the file (taken as empty when its request fails) holds no
    article of that id. *)
Theorem fetchNewsArticleById_sound (srv : Server) (id_ : Z) (s : St unit) :
  exists r,
    Api.fetchNewsArticleById srv id_ s =
      (Returned r, mkSt (caches s) (requests s ++ [news_articles (getBatchId id_)])) /\
    (forall a, r = Some a ->
               a_id a = id_ /\
               exists body, articles_file srv (getBatchId id_) = Some (Ok body) /\ In a body) /\
    (r = None <->
     forall a, In a (article_items srv (getBatchId id_)) -> a_id a <> id_).
Proof.
  eexists. split; [apply api_fetchNewsArticleById_run|]. split.
  - intros a Ha. unfold Js.find in Ha. apply find_some in Ha as [Hin Hid].
    split; [apply Z.eqb_eq, Hid|]. unfold article_items in Hin.
    destruct (articles_file srv (getBatchId id_)) as [[body|status]|];
      [eauto | destruct Hin | destruct Hin].
  - unfold Js.find. split.
    + intros Hnone a Ha. apply Z.eqb_neq. exact (find_none _ _ Hnone a Ha).
    + intros Hall.
      destruct (List.find (fun a => a_id a =? id_) (article_items srv (getBatchId id_)))
        as [a|] eqn:E; [|reflexivity].
      apply find_some in E as [Hin Hid]. apply Z.eqb_eq in Hid.
      destruct (Hall a Hin Hid).
Qed.


(** X6: although the cached [fetchNewsArticleById] stores a batch under the
    requested id, its cache stays coherent (an entry under a key is the file
    of the batch of that key), and under a coherent cache it returns what
    the uncached accessor returns; it sends at most the one request for the
    batch of the id. *)
Theorem cached_fetchNewsArticleById_agrees
    (srv : Server) (id_ : Z) (s : St Utils.Caches) (s0 : St unit) :
  article_cache_coherent srv (caches s) ->
  let call := Utils.fetchNewsArticleById srv id_ s in
  fst call = fst (Api.fetchNewsArticleById srv id_ s0) /\
  article_cache_coherent srv (caches (snd call)) /\
  (requests (snd call) = requests s \/
   requests (snd call) = requests s ++ [news_articles (getBatchId id_)]).
Proof.
  intros Hco call. subst call. rewrite api_fetchNewsArticleById_run. simpl fst.
  destruct (Utils.fetchNewsArticleById srv id_ s) as [o s'] eqn:Hrun. simpl fst. simpl snd.
  unfold Utils.fetchNewsArticleById, bind at 1, get_caches at 1 in Hrun.
  destruct (Utils.newsArticleCache (caches s) !! getBatchId id_) as [l|] eqn:E.
  - pose proof (Hco _ _ E) as Hl. rewrite getBatchId_idem in Hl.
    unfold article_items. rewrite Hl. injection Hrun as <- <-. auto.
  - unfold try_catch, Utils.fetchFileUncached, bind, fetch, article_items in *.
    destruct (articles_file srv (getBatchId id_)) as [[body|status]|] eqn:F;
      unfold ret at 1 in Hrun; simpl in Hrun.
    + destruct (Js.find (fun a => a_id a =? id_) body) as [a|] eqn:Hfind;
        simpl in Hrun; injection Hrun as <- <-; simpl.
      * split; [reflexivity|]. split; [|auto].
        intros k l. unfold Utils.newsArticleCache_set. simpl.
        rewrite lookup_insert. case_decide as Hk.
        -- intros [= <-]. subst k. exact F.
        -- apply Hco.
      * auto.
    + injection Hrun as <- <-. simpl. auto.
    + injection Hrun as <- <-. simpl. auto.
Qed.

Lemma fresh_cached_article_coherent srv : article_cache_coherent srv (caches fresh_cached).
Proof. intros k l H. discriminate H. Defined.

Lemma cached_fetchNewsArticleById_agrees_witness :
  article_cache_coherent sample_server (caches fresh_cached) /\
  let call := Utils.fetchNewsArticleById sample_server 150 fresh_cached in
  fst call = fst (Api.fetchNewsArticleById sample_server 150 fresh) /\
  article_cache_coherent sample_server (caches (snd call)) /\
  (requests (snd call) = requests fresh_cached \/
   requests (snd call) = requests fresh_cached ++ [news_articles (getBatchId 150)]).
Proof.
  split; [apply fresh_cached_article_coherent|].
  apply (cached_fetchNewsArticleById_agrees sample_server 150 fresh_cached fresh).
  apply fresh_cached_article_coherent.
Defined.

(** ** The memoized metadata of [utils.ts] *)

(** X7: once [fetchMeta] of [utils.ts] has returned, a further call returns
    the same metadata without sending a request and without changing the
    caches; the first call itself sent at most one request. *)
Theorem cached_fetchMeta_memoized (srv : Server) (s : St Utils.Caches) (m : Meta) :
  fst (Utils.fetchMeta srv s) = Returned m ->
  let s1 := snd (Utils.fetchMeta srv s) in
  Utils.fetchMeta srv s1 = (Returned m, s1) /\
  (requests s1 = requests s \/ requests s1 = requests s ++ [meta]).
Proof.
  destruct (Utils.fetchMeta srv s) as [o s1] eqn:Hrun. simpl. intros ->.
  unfold Utils.fetchMeta, bind at 1, get_caches at 1 in Hrun.
  destruct (Utils.fileCache (caches s) !! "meta"%string) as [m0|] eqn:E.
  - injection Hrun as <- <-.
    unfold Utils.fetchMeta, bind at 1, get_caches at 1. rewrite E. auto.
  - unfold bind, fetch in Hrun.
    destruct (meta_file srv) as [[data|status]|]; simpl in Hrun; try discriminate.
    injection Hrun as <- <-.
    unfold Utils.fetchMeta, bind at 1, get_caches at 1. simpl.
    unfold Utils.fileCache_set. simpl. rewrite lookup_insert_eq. auto.
Qed.

Lemma cached_fetchMeta_memoized_witness :
  exists m,
    fst (Utils.fetchMeta sample_server fresh_cached) = Returned m /\
    let s1 := snd (Utils.fetchMeta sample_server fresh_cached) in
    Utils.fetchMeta sample_server s1 = (Returned m, s1) /\
    (requests s1 = requests fresh_cached \/ requests s1 = requests fresh_cached ++ [meta]).
Proof.
  eexists. split; [reflexivity|].
  apply (cached_fetchMeta_memoized sample_server fresh_cached). reflexivity.
Defined.

(** ** [fetchNewsArticles] of [api.ts] *)

Lemma range_In n i : In i (Js.range n) <-> 0 <= i < n.
Proof.
  unfold Js.range. rewrite in_map_iff. split.
  - intros (k & <- & Hk). apply in_seq in Hk. lia.
  - intros H. exists (Z.to_nat i). split; [lia|]. apply in_seq. lia.
Qed.


Lemma ceil_div_100 n : Js.ceil_div n 100 = (n - 1) / 100 + 1.
Proof. unfold Js.ceil_div. Z.to_euclidean_division_equations. lia. Qed.

Lemma slice0_firstn {A} n (l : list A) : exists k, Js.slice0 n l = firstn k l.
Proof. unfold Js.slice0. destruct (0 <=? n); eauto. Qed.

Lemma slice0_length {A} n (l : list A) :
  0 <= n -> (length (Js.slice0 n l) <= Z.to_nat n)%nat.
Proof.
  intros H. unfold Js.slice0. destruct (Z.leb_spec 0 n); [|lia].
  rewrite length_firstn. lia.
Qed.

Lemma slice0_In {A} n (l : list A) a : In a (Js.slice0 n l) -> In a l.
Proof.
  destruct (slice0_firstn n l) as [k ->]. intros H.
  rewrite <- (firstn_skipn k l). apply in_or_app. left. exact H.
Qed.

Lemma fetchArticlesBatch_run srv b (s : St unit) :
  Api.fetchArticlesBatch srv b s =
  (Returned (article_items srv b), mkSt (caches s) (requests s ++ [news_articles b])).
Proof.
  unfold Api.fetchArticlesBatch, try_catch, bind, fetch, article_items, ret.
  destruct (articles_file srv b) as [[body|status]|]; reflexivity.
Qed.

Lemma promise_all_articles srv (f : Z -> Z) l : forall s : St unit,
  promise_all (map (fun i => Api.fetchArticlesBatch srv (f i)) l) s =
  (Returned (map (fun i => article_items srv (f i)) l),
   mkSt (caches s) (requests s ++ map (fun i => news_articles (f i)) l)).
Proof.
  induction l as [|i l IH]; intros s.
  - simpl. unfold ret. rewrite app_nil_r, st_eta. reflexivity.
  - simpl. rewrite fetchArticlesBatch_run, IH. simpl.
    rewrite <- app_assoc. reflexivity.
Qed.

(** The batches [fetchNewsArticles] reads, most recent first. *)
Lemma fetchNewsArticles_run srv fetch_base staticLimit latestId limit (s : St unit) :
  latestId <> 0 ->
  let n := Z.min (Js.ceil_div latestId 100) (Js.ceil_div staticLimit 100) in
  let batch_of i := getBatchId (latestId - 1) - 100 * i in
  let flatResults := flat_map (fun i => article_items srv (batch_of i)) (Js.range n) in
  Api.fetchNewsArticles srv fetch_base staticLimit (Some latestId) limit s =
  (Returned
     (if ((0 <? limit) && (limit <? Z.of_nat (length flatResults)))%bool
      then Js.slice0 limit flatResults else flatResults),
   mkSt (caches s) (requests s ++ map (fun i => news_articles (batch_of i)) (Js.range n))).
Proof.
  intros Hne n batch_of flatResults. unfold Api.fetchNewsArticles.
  destruct (Z.eqb_spec latestId 0) as [|_]; [contradiction|].
  unfold bind. rewrite promise_all_articles, <- flat_map_concat_map.
  assert (Hf : forall i, (Js.ceil_div latestId 100 - 1 - i) * 100 = batch_of i).
  { intros i. unfold batch_of, getBatchId. rewrite ceil_div_100. lia. }
  rewrite (flat_map_ext _ (fun i => article_items srv (batch_of i)))
    by (intros i; rewrite Hf; reflexivity).
  rewrite (map_ext _ (fun i => news_articles (batch_of i)))
    by (intros i; rewrite Hf; reflexivity).
  fold n. fold flatResults.
  destruct ((0 <? limit) && (limit <? Z.of_nat (length flatResults)))%bool; reflexivity.
Qed.

(** X8: with a latest id other than 0, [fetchNewsArticles] never throws and
    requests the article batches going down from the batch of
    [latestId - 1], one per step of 100, as many as the smaller of
    [ceil(latestId/100)] and [ceil(staticLimit/100)]; every requested batch
    start is a multiple of 100 in [0, latestId), so no negative batch is
    requested - and the batch of [latestId] itself is not requested when
    [latestId] is a multiple of 100. *)
Theorem fetchNewsArticles_requests
    (srv : Server) (fetch_base : Api.M (list NewsArticle))
    (staticLimit latestId limit : Z) (s : St unit) :
  latestId <> 0 ->
  let call := Api.fetchNewsArticles srv fetch_base staticLimit (Some latestId) limit s in
  let n := Z.min (Js.ceil_div latestId 100) (Js.ceil_div staticLimit 100) in
  (exists out, fst call = Returned out) /\
  requests (snd call) =
    requests s ++ map (fun i => news_articles (getBatchId (latestId - 1) - 100 * i)) (Js.range n) /\
  (forall i, In i (Js.range n) ->
     let b := getBatchId (latestId - 1) - 100 * i in
     0 <= b < latestId /\ getBatchId b = b).
Proof.
  intros Hne call n. subst call.
  rewrite (fetchNewsArticles_run srv fetch_base staticLimit latestId limit s Hne).
  split; [eexists; reflexivity|]. split; [reflexivity|].
  intros i Hi b. apply range_In in Hi. subst b n.
  rewrite ceil_div_100 in Hi. pose proof (getBatchId_range (latestId - 1)) as Hr.
  unfold getBatchId in *. split; [lia|].
  replace ((latestId - 1) / 100 * 100 - 100 * i) with (((latestId - 1) / 100 - i) * 100) by lia.
  rewrite Z.div_mul by lia. reflexivity.
Qed.

Lemma fetchNewsArticles_requests_witness :
  200 <> 0 /\
  let call := Api.fetchNewsArticles sample_server (ret []) 300 (Some 200) 20 fresh in
  let n := Z.min (Js.ceil_div 200 100) (Js.ceil_div 300 100) in
  (exists out, fst call = Returned out) /\
  requests (snd call) =
    requests fresh ++ map (fun i => news_articles (getBatchId (200 - 1) - 100 * i)) (Js.range n) /\
  (forall i, In i (Js.range n) ->
     let b := getBatchId (200 - 1) - 100 * i in
     0 <= b < 200 /\ getBatchId b = b).
Proof.
  assert (H : 200 <> 0) by lia. split; [exact H|].
  exact (fetchNewsArticles_requests sample_server (ret []) 300 200 20 fresh H).
Defined.

(** X9: with a latest id other than 0, [fetchNewsArticles] returns a prefix
    of the bodies of the batches it read, most recent batch first (a batch
    whose request failed counting as empty): the whole list when [limit] is
    not positive, at most [limit] articles otherwise. *)
Theorem fetchNewsArticles_result
    (srv : Server) (fetch_base : Api.M (list NewsArticle))
    (staticLimit latestId limit : Z) (s : St unit) :
  latestId <> 0 ->
  let n := Z.min (Js.ceil_div latestId 100) (Js.ceil_div staticLimit 100) in
  let all :=
    flat_map (fun i => article_items srv (getBatchId (latestId - 1) - 100 * i)) (Js.range n) in
  exists out k,
    fst (Api.fetchNewsArticles srv fetch_base staticLimit (Some latestId) limit s) = Returned out /\
    out = firstn k all /\
    (limit <= 0 -> out = all) /\
    (0 < limit -> (length out <= Z.to_nat limit)%nat).
Proof.
  intros Hne n all.
  rewrite (fetchNewsArticles_run srv fetch_base staticLimit latestId limit s Hne).
  fold n. fold all. simpl fst.
  destruct (Z.ltb_spec 0 limit) as [Hpos|Hnpos]; simpl andb.
  - destruct (Z.ltb_spec limit (Z.of_nat (length all))) as [Hlt|Hge].
    + destruct (slice0_firstn limit all) as [k Hk].
      exists (Js.slice0 limit all), k. split; [reflexivity|]. split; [exact Hk|].
      split; [lia|]. intros _. apply slice0_length. lia.
    + exists all, (length all). split; [reflexivity|].
      split; [symmetry; apply firstn_all|]. split; [reflexivity|]. lia.
  - exists all, (length all). split; [reflexivity|].
    split; [symmetry; apply firstn_all|]. split; [reflexivity|]. lia.
Qed.

Lemma fetchNewsArticles_result_witness :
  150 <> 0 /\
  let n := Z.min (Js.ceil_div 150 100) (Js.ceil_div 300 100) in
  let all :=
    flat_map (fun i => article_items sample_server (getBatchId (150 - 1) - 100 * i))
      (Js.range n) in
  exists out k,
    fst (Api.fetchNewsArticles sample_server (ret []) 300 (Some 150) 20 fresh) = Returned out /\
    out = firstn k all /\
    (20 <= 0 -> out = all) /\
    (0 < 20 -> (length out <= Z.to_nat 20)%nat).
Proof.
  assert (H : 150 <> 0) by lia. split; [exact H|].
  exact (fetchNewsArticles_result sample_server (ret []) 300 150 20 fresh H).
Defined.

(** ** [fetchNewsByTag] *)

(** What [fetchNewsByTag] of [api.ts] does with the outcome of
    [fetchTagArticles]. *)
Lemma fetchNewsByTag_by_rows
    (srv : Server) (fetchTagArticles : Api.M (list TagArticles))
    (tagId limit : Z) (s : St unit) :
  match fetchTagArticles s with
  | (Returned rows, s1) =>
      let ids := Js.slice0 limit (tag_article_ids rows tagId) in
      Api.fetchNewsByTag srv fetchTagArticles tagId limit s =
      (Returned (flat_map (found srv) (last_occurrences ids)),
       mkSt (caches s1) (requests s1 ++ map news_raw (Js.distinct (map getBatchId ids))))
  | (Thrown e, s1) =>
      Api.fetchNewsByTag srv fetchTagArticles tagId limit s = (Thrown e, s1)
  end.
Proof.
  destruct (fetchTagArticles s) as [[rows|e] s1] eqn:Hrun;
    unfold Api.fetchNewsByTag, bind at 1; rewrite Hrun; [|reflexivity].
  unfold tag_article_ids.
  destruct (Js.find (fun t => tag_id t =? tagId) rows) as [row|].
  - destruct (ta_articles row) as [|x l] eqn:E.
    + simpl. unfold ret, Js.slice0. destruct (0 <=? limit); rewrite firstn_nil;
        simpl; rewrite app_nil_r, st_eta; reflexivity.
    + change (length (x :: l) =? 0)%nat with false. cbv iota.
      apply fetchNewsRawByIds_run.
  - unfold ret, Js.slice0. destruct (0 <=? limit); rewrite firstn_nil;
      simpl; rewrite app_nil_r, st_eta; reflexivity.
Qed.

(** X10: [fetchNewsByTag] of [api.ts] is [fetchNewsRawByIds] on the first
    [limit] ids of the row of the tag: when [fetchTagArticles] returns, the
    result holds, for each of those ids in the row's order, the items found
    for it, and the only batch requests are one per distinct batch of those
    ids - none at all when the tag has no row or an empty one; when
    [fetchTagArticles] throws, the error is passed on and nothing more is
    requested. *)
Theorem fetchNewsByTag_uses_row_order
    (srv : Server) (fetchTagArticles : Api.M (list TagArticles))
    (tagId limit : Z) (s : St unit) :
  match fetchTagArticles s with
  | (Returned rows, s1) =>
      let ids := Js.slice0 limit (tag_article_ids rows tagId) in
      Api.fetchNewsByTag srv fetchTagArticles tagId limit s =
      (Returned (flat_map (found srv) (last_occurrences ids)),
       mkSt (caches s1) (requests s1 ++ map news_raw (Js.distinct (map getBatchId ids))))
  | (Thrown e, s1) =>
      Api.fetchNewsByTag srv fetchTagArticles tagId limit s = (Thrown e, s1)
  end.
Proof. exact (fetchNewsByTag_by_rows srv fetchTagArticles tagId limit s). Qed.

Lemma client_fetchNewsRawById_run srv x (s : St unit) :
  Client.fetchNewsRawById srv x s =
  (Returned (first_match srv x), mkSt (caches s) (requests s ++ [news_raw (getBatchId x)])).
Proof.
  unfold Client.fetchNewsRawById, try_catch, bind, fetch, first_match, batch_items, ret.
  change (x / 100 * 100) with (getBatchId x).
  destruct (raw_file srv (getBatchId x)) as [[body|status]|]; reflexivity.
Qed.

Lemma promise_all_by_id srv l : forall s : St unit,
  promise_all (map (Client.fetchNewsRawById srv) l) s =
  (Returned (map (first_match srv) l),
   mkSt (caches s) (requests s ++ map (fun x => news_raw (getBatchId x)) l)).
Proof.
  induction l as [|x l IH]; intros s.
  - simpl. unfold ret. rewrite app_nil_r, st_eta. reflexivity.
  - simpl. rewrite client_fetchNewsRawById_run, IH. simpl.
    rewrite <- app_assoc. reflexivity.
Qed.

Lemma omap_map_id {A B} (f : A -> option B) l :
  omap (fun item => item) (map f l) = omap f l.
Proof.
  induction l as [|x l IH]; [reflexivity|].
  csimpl. destruct (f x); csimpl; rewrite IH; reflexivity.
Qed.

(** X11: [fetchNewsByTag] of the browser client never throws.  When the
    request for the tag rows is answered ok, it sends one batch request per
    listed id among the first [limit] of the row - a batch is requested
    again for each further id in it - and returns, in the row's order and
    with repeated ids repeated, the first item of each id that has one.
    When that request is not ok or fails it returns the empty list. *)
Theorem client_fetchNewsByTag_one_request_per_id
    (srv : Server) (fetch_tag_articles : Client.M (Response (list TagArticles)))
    (tagId limit : Z) (s : St unit) :
  match fetch_tag_articles s with
  | (Returned (Ok rows), s1) =>
      let ids := Js.slice0 limit (tag_article_ids rows tagId) in
      Client.fetchNewsByTag srv fetch_tag_articles tagId limit s =
      (Returned (omap (first_match srv) ids),
       mkSt (caches s1) (requests s1 ++ map (fun x => news_raw (getBatchId x)) ids))
  | (Returned (NotOk _), s1) | (Thrown _, s1) =>
      Client.fetchNewsByTag srv fetch_tag_articles tagId limit s = (Returned [], s1)
  end.
Proof.
  destruct (fetch_tag_articles s) as [[[rows|status]|e] s1] eqn:Hrun;
    unfold Client.fetchNewsByTag, try_catch, bind at 1; rewrite Hrun; try reflexivity.
  unfold tag_article_ids.
  destruct (Js.find (fun t => tag_id t =? tagId) rows) as [row|].
  - unfold bind. rewrite promise_all_by_id. unfold ret. rewrite omap_map_id. reflexivity.
  - unfold ret, Js.slice0. destruct (0 <=? limit); rewrite firstn_nil;
      simpl; rewrite app_nil_r, st_eta; reflexivity.
Qed.

(** ** [fetchRecentNews] *)

Lemma sort_ext {A} (c1 c2 : A -> A -> Z) l :
  (forall a b, c1 a b = c2 a b) -> Js.sort c1 l = Js.sort c2 l.
Proof.
  intros H. induction l as [|x l IH]; [reflexivity|].
  simpl. rewrite IH. generalize (Js.sort c2 l). intros l'.
  induction l' as [|y l' IH']; [reflexivity|].
  simpl. rewrite H, IH'. reflexivity.
Qed.

Lemma StronglySorted_firstn {A} (R : A -> A -> Prop) k l :
  StronglySorted R l -> StronglySorted R (firstn k l).
Proof.
  intros H. revert k. induction H as [|a l Hl IH Ha]; intros k.
  - rewrite firstn_nil. constructor.
  - destruct k; simpl; constructor; [apply IH|].
    rewrite List.Forall_forall in *. intros x Hx. apply Ha.
    rewrite <- (firstn_skipn k l). apply in_or_app. left. exact Hx.
Qed.

(** X12: when the metadata is available, [fetchRecentNews] returns items
    sorted by id, highest first, at most [limit] of them (for a non-negative
    [limit]), and each of them comes from one of the batches holding
    [latestId - 100 i] for an [i] below [ceil(limit/100)]. *)
Theorem fetchRecentNews_sorted_and_bounded
    (srv : Server) (limit : Z) (s : St unit) (m : Meta) :
  meta_file srv = Some (Ok m) ->
  exists out,
    fst (Api.fetchRecentNews srv limit s) = Returned out /\
    StronglySorted (fun a b => id b <= id a) out /\
    (0 <= limit -> (length out <= Z.to_nat limit)%nat) /\
    (forall a, In a out ->
       exists i, 0 <= i < Js.ceil_div limit 100 /\
                 In a (batch_items srv (getBatchId (news_raw_latest_id m - i * 100)))).
Proof.
  intros Hm. rewrite (fetchRecentNews_run srv limit s m Hm). simpl fst.
  eexists. split; [reflexivity|].
  rewrite (sort_ext _ (by_key (fun a : NewsRawItem => - id a)))
    by (intros a b; unfold by_key; lia).
  split; [|split].
  - destruct (slice0_firstn limit
                (Js.sort (by_key (fun a : NewsRawItem => - id a))
                   (flat_map (fun i => batch_items srv
                                (getBatchId (news_raw_latest_id m - i * 100)))
                      (Js.range (Js.ceil_div limit 100))))) as [k ->].
    apply StronglySorted_firstn.
    apply (StronglySorted_on (key_le (fun a : NewsRawItem => - id a)));
      [apply sort_sorted|].
    intros a b _ _. unfold key_le. lia.
  - apply slice0_length.
  - intros a Ha. apply slice0_In, sort_In, in_flat_map in Ha as (i & Hi & Ha).
    apply range_In in Hi. eauto.
Qed.

Lemma fetchRecentNews_sorted_and_bounded_witness :
  exists m,
    meta_file sample_server = Some (Ok m) /\
    exists out,
      fst (Api.fetchRecentNews sample_server 150 fresh) = Returned out /\
      StronglySorted (fun a b => id b <= id a) out /\
      (0 <= 150 -> (length out <= Z.to_nat 150)%nat) /\
      (forall a, In a out ->
         exists i, 0 <= i < Js.ceil_div 150 100 /\
                   In a (batch_items sample_server
                           (getBatchId (news_raw_latest_id m - i * 100)))).
Proof.
  eexists. split; [reflexivity|].
  apply (fetchRecentNews_sorted_and_bounded sample_server 150 fresh). reflexivity.
Defined.

(** X13: when the metadata cannot be fetched (no reply, or a response that
    is not ok), [fetchRecentNews] throws after the one request for [meta]
    and requests no batch - in [api.ts], and in [utils.ts] when no metadata
    is memoized, where the caches are left as they were. *)
Theorem fetchRecentNews_needs_meta
    (srv : Server) (limit : Z) (s : St unit) (u : St Utils.Caches) :
  (forall m, meta_file srv <> Some (Ok m)) ->
  Utils.fileCache (caches u) !! "meta"%string = None ->
  (exists e, Api.fetchRecentNews srv limit s =
             (Thrown e, mkSt (caches s) (requests s ++ [meta]))) /\
  (exists e, Utils.fetchRecentNews srv limit u =
             (Thrown e, mkSt (caches u) (requests u ++ [meta]))).
Proof.
  intros Hfail Hmiss. split.
  - unfold Api.fetchRecentNews, bind at 1, Api.fetchMeta, Api.fetchFile, bind, fetch.
    destruct (meta_file srv) as [[m|status]|]; [destruct (Hfail m eq_refl) | |];
      eexists; reflexivity.
  - unfold Utils.fetchRecentNews, bind at 1, Utils.fetchMeta, bind at 1, get_caches at 1.
    rewrite Hmiss. unfold bind, fetch.
    destruct (meta_file srv) as [[m|status]|]; [destruct (Hfail m eq_refl) | |];
      eexists; reflexivity.
Qed.

Lemma fetchRecentNews_needs_meta_witness :
  (forall m, meta_file sample_server_without_meta <> Some (Ok m)) /\
  Utils.fileCache (caches fresh_cached) !! "meta"%string = None /\
  (exists e, Api.fetchRecentNews sample_server_without_meta 5 fresh =
             (Thrown e, mkSt (caches fresh) (requests fresh ++ [meta]))) /\
  (exists e, Utils.fetchRecentNews sample_server_without_meta 5 fresh_cached =
             (Thrown e, mkSt (caches fresh_cached) (requests fresh_cached ++ [meta]))).
Proof.
  assert (H1 : forall m, meta_file sample_server_without_meta <> Some (Ok m))
    by (intros m; discriminate).
  assert (H2 : Utils.fileCache (caches fresh_cached) !! "meta"%string = None)
    by reflexivity.
  split; [exact H1|]. split; [exact H2|].
  exact (fetchRecentNews_needs_meta sample_server_without_meta 5 fresh fresh_cached H1 H2).
Defined.

(** ** [searchNews] *)




(** ** The reference store *)

Lemma store_fetchNewsRawBatch_run srv b (s : St (gmap Z NewsRawItem)) :
  Store.fetchNewsRawBatch srv b s =
  (match raw_file srv (getBatchId b) with
   | Some (Ok body) => Returned body
   | Some (NotOk status) => Thrown (FailedToFetch (news_raw (getBatchId b)) status)
   | None => Thrown (FetchRejected (news_raw (getBatchId b)))
   end,
   mkSt (caches s) (requests s ++ [news_raw (getBatchId b)])).
Proof.
  unfold Store.fetchNewsRawBatch, bind, fetch, throw, ret.
  change (b / 100 * 100) with (getBatchId b).
  destruct (raw_file srv (getBatchId b)) as [[body|status]|]; reflexivity.
Qed.

(** Joint fetch of batches through the throwing accessor: every request is
    sent; the result is the list of bodies when all are served, an error
    otherwise. *)
Lemma store_promise_all srv bs : forall s : St (gmap Z NewsRawItem),
  snd (promise_all (map (Store.fetchNewsRawBatch srv) bs) s) =
    mkSt (caches s) (requests s ++ map (fun b => news_raw (getBatchId b)) bs) /\
  ((forall b, In b bs -> served srv (getBatchId b)) ->
   fst (promise_all (map (Store.fetchNewsRawBatch srv) bs) s) =
     Returned (map (fun b => batch_items srv (getBatchId b)) bs)) /\
  ((exists b, In b bs /\ ~ served srv (getBatchId b)) ->
   exists e, fst (promise_all (map (Store.fetchNewsRawBatch srv) bs) s) = Thrown e).
Proof.
  induction bs as [|b bs IH]; intros s.
  - simpl. rewrite app_nil_r, st_eta. split; [reflexivity|].
    split; [reflexivity|]. intros (b & [] & _).
  - simpl promise_all. rewrite store_fetchNewsRawBatch_run.
    set (s1 := mkSt (caches s) (requests s ++ [news_raw (getBatchId b)])).
    destruct (IH s1) as (Hst & Hok & Hfail).
    destruct (promise_all (map (Store.fetchNewsRawBatch srv) bs) s1) as [o s2] eqn:Hrun.
    simpl in Hst, Hok, Hfail.
    assert (Hs2 : s2 = mkSt (caches s)
                         (requests s ++ map (fun b => news_raw (getBatchId b)) (b :: bs))).
    { rewrite Hst. subst s1. simpl. rewrite <- app_assoc. reflexivity. }
    destruct (raw_file srv (getBatchId b)) as [[body|status]|] eqn:F.
    + assert (Hb : batch_items srv (getBatchId b) = body)
        by (unfold batch_items; rewrite F; reflexivity).
      destruct o as [l|e]; simpl; (split; [exact Hs2|]); split.
      * intros Hall. rewrite Hb.
        assert (Hl : Returned l =
                     Returned (map (fun b0 => batch_items srv (getBatchId b0)) bs))
          by (apply Hok; intros b' Hb'; apply Hall; auto).
        injection Hl as ->. reflexivity.
      * intros (b' & [<-|Hb'] & Hns); [destruct Hns; eexists; exact F|].
        destruct Hfail as [e He]; [eauto | discriminate].
      * intros Hall.
        assert (Hl : Thrown e =
                     Returned (map (fun b0 => batch_items srv (getBatchId b0)) bs))
          by (apply Hok; intros b' Hb'; apply Hall; auto).
        discriminate.
      * intros _. eauto.
    + simpl. split; [exact Hs2|]. split.
      * intros Hall. destruct (Hall b (or_introl eq_refl)) as [body Hbody]. congruence.
      * intros _. eauto.
    + simpl. split; [exact Hs2|]. split.
      * intros Hall. destruct (Hall b (or_introl eq_refl)) as [body Hbody]. congruence.
      * intros _. eauto.
Qed.

(** X15: when one of the batches [fetchNewsRaw] of the reference store has
    to fetch cannot be fetched, the call still does not throw: it returns
    the empty list, leaves [newsRawCache] unchanged, and has sent the
    requests of all the batches it needed, one per distinct batch of the
    uncached ids. *)
Theorem store_fetchNewsRaw_all_or_nothing
    (srv : Server) (ids : list Z) (s : St (gmap Z NewsRawItem)) (bad : Z) :
  In bad ids ->
  caches s !! bad = None ->
  ~ served srv (getBatchId bad) ->
  let uncached := List.filter (fun x => negb (bool_decide (is_Some (caches s !! x)))) ids in
  Store.fetchNewsRaw srv ids s =
  (Returned [],
   mkSt (caches s) (requests s ++ map news_raw (Js.distinct (map getBatchId uncached)))).
Proof.
  intros Hin Hmiss Hbad uncached.
  assert (Hun : In bad uncached).
  { apply filter_In. split; [assumption|]. rewrite Hmiss.
    apply negb_true_iff, bool_decide_eq_false. intros [x Hx]. discriminate. }
  unfold Store.fetchNewsRaw, bind at 1, get_caches at 1. fold uncached.
  destruct uncached as [|u0 us] eqn:Eu; [destruct Hun|].
  change (length (u0 :: us) =? 0)%nat with false. cbv iota.
  set (bs := Js.distinct (map getBatchId (u0 :: us))).
  destruct (store_promise_all srv bs s) as (Hst & _ & Hfail).
  assert (Hidem : forall b, In b bs -> getBatchId b = b)
    by (intros b Hb; apply (batch_keys_idem (u0 :: us)), Hb).
  destruct Hfail as [e He].
  { exists (getBatchId bad). split.
    - apply distinct_In, in_map, Hun.
    - rewrite getBatchId_idem. exact Hbad. }
  unfold try_catch, bind at 1.
  destruct (promise_all (map (Store.fetchNewsRawBatch srv) bs) s) as [o s2].
  simpl in Hst, He. subst o s2. unfold ret. f_equal. f_equal. f_equal.
  apply map_ext_in. intros b Hb. rewrite (Hidem b Hb). reflexivity.
Qed.

Lemma store_fetchNewsRaw_all_or_nothing_witness :
  In 350 [30; 350; 120] /\
  (∅ : gmap Z NewsRawItem) !! 350 = None /\
  ~ served sample_server (getBatchId 350) /\
  Store.fetchNewsRaw sample_server [30; 350; 120] (mkSt ∅ []) =
  (Returned [],
   mkSt ∅ ([] ++ map news_raw
                 (Js.distinct (map getBatchId
                    (List.filter
                       (fun x => negb (bool_decide
                                   (is_Some ((∅ : gmap Z NewsRawItem) !! x))))
                       [30; 350; 120]))))).
Proof.
  assert (H1 : In 350 [30; 350; 120]) by (simpl; auto).
  assert (H2 : (∅ : gmap Z NewsRawItem) !! 350 = None) by reflexivity.
  assert (H3 : ~ served sample_server (getBatchId 350))
    by (intros [body Hb]; discriminate Hb).
  split; [exact H1|]. split; [exact H2|]. split; [exact H3|].
  exact (store_fetchNewsRaw_all_or_nothing sample_server [30; 350; 120] (mkSt ∅ []) 350
           H1 H2 H3).
Defined.

(** X16: when every requested id is in the store's [newsRawCache],
    [fetchNewsRaw] sends no request and changes nothing; it returns the
    cached item of each requested id, in input order, an id requested twice
    being answered twice. *)
Theorem store_fetchNewsRaw_from_cache
    (srv : Server) (ids : list Z) (s : St (gmap Z NewsRawItem)) :
  (forall x, In x ids -> is_Some (caches s !! x)) ->
  exists out,
    Store.fetchNewsRaw srv ids s = (Returned out, s) /\
    Forall2 (fun x a => caches s !! x = Some a) ids out.
Proof.
  intros Hall. exists (Store.cached_items (caches s) ids). split.
  - unfold Store.fetchNewsRaw, bind at 1, get_caches at 1.
    rewrite filter_none; [reflexivity|].
    intros x Hx. apply negb_false_iff, bool_decide_eq_true, Hall, Hx.
  - unfold Store.cached_items. induction ids as [|x ids IH]; [constructor|].
    destruct (Hall x (or_introl eq_refl)) as [a Ha].
    csimpl. rewrite Ha. csimpl. constructor; [exact Ha|].
    apply IH. intros y Hy. apply Hall. simpl. auto.
Qed.

Lemma store_fetchNewsRaw_from_cache_witness :
  let cache : gmap Z NewsRawItem := <[30 := item 30 "thirty"]> ∅ in
  (forall x, In x [30; 30] -> is_Some (cache !! x)) /\
  exists out,
    Store.fetchNewsRaw sample_server [30; 30] (mkSt cache []) = (Returned out, mkSt cache []) /\
    Forall2 (fun x a => cache !! x = Some a) [30; 30] out.
Proof.
  intros cache.
  assert (H : forall x, In x [30; 30] -> is_Some (cache !! x)).
  { intros x [<-|[<-|[]]]; eexists; reflexivity. }
  split; [exact H|].
  exact (store_fetchNewsRaw_from_cache sample_server [30; 30] (mkSt cache []) H).
Defined.

Lemma fold_insert_keyed l : forall c : gmap Z NewsRawItem,
  id_keyed c -> id_keyed (fold_left (fun c item => <[id item := item]> c) l c).
Proof.
  induction l as [|a l IH]; intros c Hc; [exact Hc|].
  simpl. apply IH. intros k b. rewrite lookup_insert. case_decide as Hk.
  - intros [= <-]. exact Hk.
  - apply Hc.
Qed.

Lemma fold_insert_mono l : forall (c : gmap Z NewsRawItem) k,
  is_Some (c !! k) ->
  is_Some (fold_left (fun c item => <[id item := item]> c) l c !! k).
Proof.
  induction l as [|a l IH]; intros c k Hk; [exact Hk|].
  simpl. apply IH. rewrite lookup_insert. case_decide; [eauto | exact Hk].
Qed.

Lemma fold_insert_In l : forall (c : gmap Z NewsRawItem) a,
  In a l ->
  is_Some (fold_left (fun c item => <[id item := item]> c) l c !! id a).
Proof.
  induction l as [|b l IH]; intros c a Ha; [destruct Ha|].
  simpl. destruct Ha as [->|Ha]; [|apply IH, Ha].
  apply fold_insert_mono. rewrite lookup_insert_eq. eauto.
Qed.

Lemma cached_items_ids (c : gmap Z NewsRawItem) ids :
  id_keyed c ->
  map id (Store.cached_items c ids) =
  List.filter (fun x => bool_decide (is_Some (c !! x))) ids.
Proof.
  intros Hc. unfold Store.cached_items. induction ids as [|x ids IH]; [reflexivity|].
  csimpl. destruct (c !! x) as [a|] eqn:E; csimpl.
  - rewrite IH, (Hc _ _ E). reflexivity.
  - exact IH.
Qed.

(** What a call of [fetchNewsRaw] does when every batch it needs is
    served. *)
Lemma store_fetchNewsRaw_served_run srv ids (s : St (gmap Z NewsRawItem)) :
  (forall x, In x ids -> caches s !! x = None -> served srv (getBatchId x)) ->
  let uncached := List.filter (fun x => negb (bool_decide (is_Some (caches s !! x)))) ids in
  let bs := Js.distinct (map getBatchId uncached) in
  let cache' :=
    fold_left (fun c item => <[id item := item]> c)
      (flat_map (batch_items srv) bs) (caches s) in
  Store.fetchNewsRaw srv ids s =
  if (length uncached =? 0)%nat then (Returned (Store.cached_items (caches s) ids), s)
  else (Returned (Store.cached_items cache' ids),
        mkSt cache' (requests s ++ map news_raw bs)).
Proof.
  intros Hserved uncached bs cache'.
  unfold Store.fetchNewsRaw, bind at 1, get_caches at 1. fold uncached.
  destruct (length uncached =? 0)%nat eqn:El; [reflexivity|]. fold bs.
  destruct (store_promise_all srv bs s) as (Hst & Hok & _).
  assert (Hidem : forall b, In b bs -> getBatchId b = b)
    by (intros b Hb; apply (batch_keys_idem uncached), Hb).
  assert (Hall : forall b, In b bs -> served srv (getBatchId b)).
  { intros b Hb. rewrite (Hidem b Hb).
    apply distinct_In, in_map_iff in Hb as (x & <- & Hx).
    apply filter_In in Hx as [Hx Hun].
    apply Hserved; [exact Hx|].
    apply negb_true_iff, bool_decide_eq_false in Hun.
    destruct (caches s !! x); [destruct Hun; eauto | reflexivity]. }
  specialize (Hok Hall).
  unfold try_catch, bind at 1.
  destruct (promise_all (map (Store.fetchNewsRawBatch srv) bs) s) as [o s2].
  simpl in Hst, Hok. subst o s2. unfold bind, set_caches, ret. simpl.
  rewrite <- flat_map_concat_map.
  assert (Hitems : flat_map (fun b => batch_items srv (getBatchId b)) bs =
                   flat_map (batch_items srv) bs).
  { rewrite !flat_map_concat_map. f_equal. apply map_ext_in.
    intros b Hb. rewrite (Hidem b Hb). reflexivity. }
  assert (Hreq : map (fun b => news_raw (getBatchId b)) bs = map news_raw bs).
  { apply map_ext_in. intros b Hb. rewrite (Hidem b Hb). reflexivity. }
  rewrite Hitems, Hreq. reflexivity.
Qed.

(** X17: when every batch [fetchNewsRaw] of the reference store needs is
    served and its cache is keyed by item id, the call returns and the cache
    stays keyed by item id and loses no key; the ids of the returned items
    are the requested ids that are cached afterwards, in input order and
    with repeated ids repeated; and every requested id that was cached or
    has an item in its batch file is among them. *)
Theorem store_fetchNewsRaw_answers_in_input_order
    (srv : Server) (ids : list Z) (s : St (gmap Z NewsRawItem)) :
  id_keyed (caches s) ->
  (forall x, In x ids -> caches s !! x = None -> served srv (getBatchId x)) ->
  exists out s',
    Store.fetchNewsRaw srv ids s = (Returned out, s') /\
    id_keyed (caches s') /\
    (forall k, is_Some (caches s !! k) -> is_Some (caches s' !! k)) /\
    map id out = List.filter (fun x => bool_decide (is_Some (caches s' !! x))) ids /\
    (forall x, In x ids ->
       is_Some (caches s !! x) \/
       (exists a, In a (batch_items srv (getBatchId x)) /\ id a = x) ->
       In x (map id out)).
Proof.
  intros Hkeyed Hserved.
  rewrite (store_fetchNewsRaw_served_run srv ids s Hserved).
  set (uncached := List.filter (fun x => negb (bool_decide (is_Some (caches s !! x)))) ids).
  set (bs := Js.distinct (map getBatchId uncached)).
  set (cache' := fold_left (fun c item => <[id item := item]> c)
                   (flat_map (batch_items srv) bs) (caches s)).
  assert (Hk' : id_keyed cache') by (apply fold_insert_keyed, Hkeyed).
  assert (Hmono : forall k, is_Some (caches s !! k) -> is_Some (cache' !! k))
    by (intros k; apply fold_insert_mono).
  assert (Hnew : forall x, In x ids ->
            is_Some (caches s !! x) \/
            (exists a, In a (batch_items srv (getBatchId x)) /\ id a = x) ->
            is_Some (cache' !! x)).
  { intros x Hx [Hc|(a & Ha & <-)]; [auto|].
    destruct (caches s !! id a) as [a0|] eqn:E; [apply Hmono; rewrite E; eauto|].
    apply fold_insert_In, in_flat_map. exists (getBatchId (id a)).
    split; [|exact Ha]. apply distinct_In, in_map, filter_In.
    split; [exact Hx|]. rewrite E.
    apply negb_true_iff, bool_decide_eq_false. intros [y Hy]. discriminate. }
  destruct (length uncached =? 0)%nat eqn:El.
  - exists (Store.cached_items (caches s) ids), s.
    split; [reflexivity|]. split; [exact Hkeyed|]. split; [auto|].
    split; [apply cached_items_ids, Hkeyed|].
    intros x Hx Hor. rewrite cached_items_ids by exact Hkeyed.
    apply filter_In. split; [exact Hx|]. apply bool_decide_eq_true.
    destruct Hor as [Hc|Hfile]; [exact Hc|].
    destruct (caches s !! x) as [a0|] eqn:E; [eauto|].
    apply Nat.eqb_eq in El. apply length_zero_iff_nil in El.
    assert (Hin : In x uncached).
    { apply filter_In. split; [exact Hx|]. rewrite E.
      apply negb_true_iff, bool_decide_eq_false. intros [y Hy]. discriminate. }
    rewrite El in Hin. destruct Hin.
  - exists (Store.cached_items cache' ids), (mkSt cache' (requests s ++ map news_raw bs)).
    split; [reflexivity|]. simpl. split; [exact Hk'|]. split; [exact Hmono|].
    split; [apply cached_items_ids, Hk'|].
    intros x Hx Hor. rewrite cached_items_ids by exact Hk'.
    apply filter_In. split; [exact Hx|]. apply bool_decide_eq_true. auto.
Qed.

Lemma empty_id_keyed : id_keyed ∅.
Proof. intros k a H. discriminate H. Defined.

Lemma store_fetchNewsRaw_answers_in_input_order_witness :
  id_keyed ∅ /\
  (forall x, In x [30; 120; 30] ->
     (∅ : gmap Z NewsRawItem) !! x = None -> served sample_server (getBatchId x)) /\
  exists out s',
    Store.fetchNewsRaw sample_server [30; 120; 30] (mkSt ∅ []) = (Returned out, s') /\
    id_keyed (caches s') /\
    (forall k, is_Some ((∅ : gmap Z NewsRawItem) !! k) -> is_Some (caches s' !! k)) /\
    map id out = List.filter (fun x => bool_decide (is_Some (caches s' !! x))) [30; 120; 30] /\
    (forall x, In x [30; 120; 30] ->
       is_Some ((∅ : gmap Z NewsRawItem) !! x) \/
       (exists a, In a (batch_items sample_server (getBatchId x)) /\ id a = x) ->
       In x (map id out)).
Proof.
  assert (H : forall x, In x [30; 120; 30] ->
            (∅ : gmap Z NewsRawItem) !! x = None -> served sample_server (getBatchId x)).
  { intros x [<-|[<-|[<-|[]]]] _; eexists; reflexivity. }
  split; [exact empty_id_keyed|]. split; [exact H|].
  exact (store_fetchNewsRaw_answers_in_input_order sample_server [30; 120; 30] (mkSt ∅ [])
           empty_id_keyed H).
Defined.



(** ** The text helpers of [utils.ts] *)

Lemma string_ind2 (P : string -> Prop) :
  P EmptyString ->
  (forall c, P (String c EmptyString)) ->
  (forall c d r, P r -> P (String d r) -> P (String c (String d r))) ->
  forall s, P s.
Proof.
  intros H0 H1 H2 s.
  assert (H : P s /\ forall c, P (String c s)).
  { induction s as [|d r [IHr IHc]]; [split; [exact H0 | exact H1]|].
    split; [apply IHc|]. intros c. apply H2; [exact IHr | apply IHc]. }
  apply H.
Qed.

Lemma cleanTitle_step c d r :
  (Ascii.eqb c "*" && Ascii.eqb d "*")%bool = false ->
  Utils.cleanTitle (String c (String d r)) = String c (Utils.cleanTitle (String d r)).
Proof. intros H. simpl. rewrite H. reflexivity. Qed.

Lemma cleanTitle_pair r :
  Utils.cleanTitle (String "*" (String "*" r)) = Utils.cleanTitle r.
Proof. reflexivity. Qed.

Lemma cleanTitle_head d r :
  Ascii.eqb d "*" = false ->
  Utils.cleanTitle (String d r) = String d (Utils.cleanTitle r).
Proof.
  intros H. destruct r as [|e r]; [reflexivity|].
  apply cleanTitle_step. rewrite H. reflexivity.
Qed.

Lemma includes_cons c s sub :
  Js.includes (String c s) sub = (Js.startsWith (String c s) sub || Js.includes s sub)%bool.
Proof. reflexivity. Qed.

Lemma cleanTitle_no_stars t : Js.includes (Utils.cleanTitle t) "**" = false.
Proof.
  induction t as [| c | c d r IHr IHd] using string_ind2.
  - reflexivity.
  - simpl. rewrite andb_false_r. reflexivity.
  - destruct (Ascii.eqb c "*" && Ascii.eqb d "*")%bool eqn:E.
    + apply andb_true_iff in E as [Hc Hd]. apply Ascii.eqb_eq in Hc, Hd. subst c d.
      rewrite cleanTitle_pair. exact IHr.
    + rewrite (cleanTitle_step _ _ _ E), includes_cons, IHd, orb_false_r.
      destruct (Ascii.eqb c "*") eqn:Hc.
      * simpl in E. rewrite (cleanTitle_head _ _ E). simpl. rewrite Hc, E. reflexivity.
      * simpl. rewrite Hc. reflexivity.
Qed.

Lemma startsWith_empty s : Js.startsWith s "" = true.
Proof. destruct s; reflexivity. Qed.

Lemma cleanTitle_fixed t : Js.includes t "**" = false -> Utils.cleanTitle t = t.
Proof.
  induction t as [| c | c d r IHr IHd] using string_ind2; intros H; [reflexivity..|].
  rewrite includes_cons in H. apply orb_false_iff in H as [Hs Hi].
  rewrite cleanTitle_step, (IHd Hi); [reflexivity|].
  simpl in Hs. rewrite startsWith_empty, andb_true_r in Hs. exact Hs.
Qed.

Lemma cleanTitle_length t :
  (String.length (Utils.cleanTitle t) <= String.length t)%nat.
Proof.
  induction t as [| c | c d r IHr IHd] using string_ind2; [simpl; lia..|].
  destruct (Ascii.eqb c "*" && Ascii.eqb d "*")%bool eqn:E.
  - apply andb_true_iff in E as [Hc Hd]. apply Ascii.eqb_eq in Hc, Hd. subst c d.
    rewrite cleanTitle_pair. simpl. lia.
  - rewrite (cleanTitle_step _ _ _ E). simpl in *. lia.
Qed.

(** X19: [cleanTitle] leaves no pair of stars: its result does not contain
    [**], is never longer than the title, and is left unchanged by a second
    pass; a title without [**] is returned as it is. *)
Theorem cleanTitle_removes_bold_markers (t : string) :
  Js.includes (Utils.cleanTitle t) "**" = false /\
  (String.length (Utils.cleanTitle t) <= String.length t)%nat /\
  Utils.cleanTitle (Utils.cleanTitle t) = Utils.cleanTitle t /\
  (Js.includes t "**" = false -> Utils.cleanTitle t = t).
Proof.
  split; [apply cleanTitle_no_stars|]. split; [apply cleanTitle_length|].
  split; [apply cleanTitle_fixed, cleanTitle_no_stars | apply cleanTitle_fixed].
Qed.

Lemma cleanTitle_removes_bold_markers_witness :
  Js.includes "plain *title*" "**" = false /\
  Js.includes (Utils.cleanTitle "plain *title*") "**" = false /\
  (String.length (Utils.cleanTitle "plain *title*") <= String.length "plain *title*")%nat /\
  Utils.cleanTitle (Utils.cleanTitle "plain *title*") = Utils.cleanTitle "plain *title*" /\
  Utils.cleanTitle "plain *title*" = "plain *title*".
Proof.
  assert (H : Js.includes "plain *title*" "**" = false) by reflexivity.
  split; [exact H|].
  destruct (cleanTitle_removes_bold_markers "plain *title*") as (H1 & H2 & H3 & H4).
  split; [exact H1|]. split; [exact H2|]. split; [exact H3 | exact (H4 H)].
Defined.

Lemma slug_char_not_dash c : Utils.is_slug_char c = true -> Ascii.eqb c "-" = false.
Proof. destruct c as [[] [] [] [] [] [] [] []]; intros H; try reflexivity; discriminate H. Qed.

Lemma startsWith_dash s : Js.startsWith s "-" = starts_with_dash s.
Proof.
  destruct s as [|c s]; [reflexivity|].
  simpl. rewrite startsWith_empty. apply andb_true_r.
Qed.

Lemma dash_runs_chars s : forall b, all_chars slug_or_dash (Utils.dash_runs b s) = true.
Proof.
  induction s as [|c s IH]; intros b; [reflexivity|].
  simpl. destruct (Utils.is_slug_char c) eqn:E.
  - simpl. unfold slug_or_dash at 1. rewrite E. simpl. apply IH.
  - destruct b; [apply IH|]. simpl. apply IH.
Qed.

Lemma dash_runs_in_run s : starts_with_dash (Utils.dash_runs true s) = false.
Proof.
  induction s as [|c s IH]; [reflexivity|].
  simpl. destruct (Utils.is_slug_char c) eqn:E; [|exact IH].
  simpl. apply slug_char_not_dash, E.
Qed.

Lemma dash_runs_single s : forall b, Js.includes (Utils.dash_runs b s) "--" = false.
Proof.
  induction s as [|c s IH]; intros b; [reflexivity|].
  simpl Utils.dash_runs. destruct (Utils.is_slug_char c) eqn:E.
  - rewrite includes_cons, IH, orb_false_r. simpl.
    rewrite (slug_char_not_dash c E). reflexivity.
  - destruct b; [apply IH|].
    rewrite includes_cons, IH, orb_false_r.
    change (Js.startsWith (String "-" (Utils.dash_runs true s)) "--")
      with (Js.startsWith (Utils.dash_runs true s) "-").
    rewrite startsWith_dash. apply dash_runs_in_run.
Qed.

Lemma includes_tail c s sub : Js.includes (String c s) sub = false -> Js.includes s sub = false.
Proof. rewrite includes_cons. intros H. apply orb_false_iff in H. tauto. Qed.

Lemma strip_trailing_cons c d s :
  Utils.strip_trailing_dash (String c (String d s)) =
  String c (Utils.strip_trailing_dash (String d s)).
Proof. reflexivity. Qed.

Lemma strip_trailing_start s :
  starts_with_dash (Utils.strip_trailing_dash s) = true -> starts_with_dash s = true.
Proof.
  destruct s as [|c [|d s]]; [discriminate| |].
  - simpl. destruct (Ascii.eqb c "-") eqn:E; simpl; intros H; congruence.
  - rewrite strip_trailing_cons. auto.
Qed.

Lemma strip_trailing_chars p s :
  all_chars p s = true -> all_chars p (Utils.strip_trailing_dash s) = true.
Proof.
  induction s as [|c s IH]; [auto|].
  destruct s as [|d s].
  - simpl. destruct (Ascii.eqb c "-"); auto.
  - rewrite strip_trailing_cons. intros H. simpl in H.
    apply andb_true_iff in H as [Hc Hs]. simpl all_chars at 1.
    rewrite Hc. apply IH. exact Hs.
Qed.

Lemma strip_trailing_single s :
  Js.includes s "--" = false -> Js.includes (Utils.strip_trailing_dash s) "--" = false.
Proof.
  induction s as [|c s IH]; [auto|].
  destruct s as [|d s].
  - simpl. destruct (Ascii.eqb c "-"); [reflexivity|]. simpl. rewrite andb_false_r. reflexivity.
  - rewrite strip_trailing_cons. intros H. pose proof (includes_tail _ _ _ H) as Ht.
    rewrite includes_cons, (IH Ht), orb_false_r.
    rewrite includes_cons in H. apply orb_false_iff in H as [Hs _].
    change (Js.startsWith (String c (String d s)) "--")
      with (Ascii.eqb c "-" && Js.startsWith (String d s) "-")%bool in Hs.
    change (Js.startsWith (String c (Utils.strip_trailing_dash (String d s))) "--")
      with (Ascii.eqb c "-" && Js.startsWith (Utils.strip_trailing_dash (String d s)) "-")%bool.
    rewrite startsWith_dash in Hs |- *.
    destruct (Ascii.eqb c "-"); [|reflexivity]. rewrite andb_true_l in Hs |- *.
    destruct (starts_with_dash (Utils.strip_trailing_dash (String d s))) eqn:E;
      [|reflexivity].
    apply strip_trailing_start in E. congruence.
Qed.

Lemma strip_trailing_end s :
  Js.includes s "--" = false -> ends_with_dash (Utils.strip_trailing_dash s) = false.
Proof.
  induction s as [|c s IH]; [auto|].
  destruct s as [|d s].
  - intros _. simpl. destruct (Ascii.eqb c "-") eqn:E; [reflexivity|]. simpl. exact E.
  - rewrite strip_trailing_cons. intros H. pose proof (includes_tail _ _ _ H) as Ht.
    specialize (IH Ht).
    destruct (Utils.strip_trailing_dash (String d s)) as [|e t] eqn:Et.
    + destruct s as [|e s]; [|rewrite strip_trailing_cons in Et; discriminate].
      simpl in Et. destruct (Ascii.eqb d "-") eqn:Ed; [|discriminate].
      rewrite includes_cons in H. apply orb_false_iff in H as [Hs _].
      simpl in Hs. rewrite Ed in Hs. simpl in Hs. rewrite andb_true_r in Hs.
      simpl. exact Hs.
    + exact IH.
Qed.

(** X20: a slug made by [slugify] consists of the characters [a-z], [0-9]
    and the dash only, contains no two dashes in a row, and neither starts
    nor ends with a dash. *)
Theorem slugify_is_url_safe (text : string) :
  all_chars slug_or_dash (Utils.slugify text) = true /\
  Js.includes (Utils.slugify text) "--" = false /\
  starts_with_dash (Utils.slugify text) = false /\
  ends_with_dash (Utils.slugify text) = false.
Proof.
  unfold Utils.slugify. set (d := Utils.dash_runs false (Js.toLowerCase text)).
  assert (Hc : all_chars slug_or_dash d = true) by apply dash_runs_chars.
  assert (Hs : Js.includes d "--" = false) by apply dash_runs_single.
  assert (Hc' : all_chars slug_or_dash (Utils.strip_leading_dash d) = true).
  { destruct d as [|c d']; [reflexivity|]. simpl.
    destruct (Ascii.eqb c "-"); [|exact Hc].
    simpl in Hc. apply andb_true_iff in Hc. tauto. }
  assert (Hs' : Js.includes (Utils.strip_leading_dash d) "--" = false).
  { destruct d as [|c d']; [reflexivity|]. simpl Utils.strip_leading_dash.
    destruct (Ascii.eqb c "-"); [apply (includes_tail _ _ _ Hs) | exact Hs]. }
  assert (Hb : starts_with_dash (Utils.strip_leading_dash d) = false).
  { destruct d as [|c d']; [reflexivity|]. simpl Utils.strip_leading_dash.
    destruct (Ascii.eqb c "-") eqn:E; [|simpl; exact E].
    rewrite includes_cons in Hs. apply orb_false_iff in Hs as [Hs _].
    change (Js.startsWith (String c d') "--")
      with (Ascii.eqb c "-" && Js.startsWith d' "-")%bool in Hs.
    rewrite E, startsWith_dash in Hs. exact Hs. }
  split; [apply strip_trailing_chars, Hc'|].
  split; [apply strip_trailing_single, Hs'|].
  split; [|apply strip_trailing_end, Hs'].
  destruct (starts_with_dash (Utils.strip_trailing_dash (Utils.strip_leading_dash d))) eqn:E;
    [|reflexivity].
  apply strip_trailing_start in E. congruence.
Qed.

(** ** More on [fetchNewsRawByIds] and [fetchNewsByTag] of [api.ts] *)


Lemma in_input_order_length srv ids :
  unique_ids srv -> (length (in_input_order srv ids) <= length ids)%nat.
Proof.
  intros Hu.
  assert (Hnd : NoDup (map id (in_input_order srv ids)))
    by (apply flat_map_found_NoDup; [assumption | apply last_occurrences_NoDup]).
  pose proof (last_occurrences_length ids).
  assert ((length (in_input_order srv ids) <= length (last_occurrences ids))%nat); [|lia].
  rewrite <- (length_map id). apply List.NoDup_incl_length; [apply NoDup_ListNoDup, Hnd|].
  intros x Hx. apply in_map_iff in Hx as (a & <- & Ha).
  apply last_occurrences_In, in_input_order_id with srv, Ha.
Qed.

(** X22: when every batch file holds at most one item per id and [limit]
    is not negative, [fetchNewsByTag] of [api.ts] returns at most [limit]
    items, whatever rows [fetchTagArticles] returned. *)
Theorem fetchNewsByTag_at_most_limit
    (srv : Server) (fetchTagArticles : Api.M (list TagArticles))
    (tagId limit : Z) (s : St unit) (out : list NewsRawItem) :
  unique_ids srv ->
  0 <= limit ->
  fst (Api.fetchNewsByTag srv fetchTagArticles tagId limit s) = Returned out ->
  (length out <= Z.to_nat limit)%nat.
Proof.
  intros Hu Hlimit Hout.
  pose proof (fetchNewsByTag_by_rows srv fetchTagArticles tagId limit s) as Hrun.
  destruct (fetchTagArticles s) as [[rows|e] s1]; rewrite Hrun in Hout; [|discriminate].
  injection Hout as <-.
  pose proof (in_input_order_length srv (Js.slice0 limit (tag_article_ids rows tagId)) Hu).
  pose proof (slice0_length limit (tag_article_ids rows tagId) Hlimit).
  unfold in_input_order in *. lia.
Qed.

Lemma fetchNewsByTag_at_most_limit_witness :
  let rows := [ {| tag_id := 5; ta_articles := [200; 30; 10; 30; 120];
                   ta_description := "tag" |} ] in
  unique_ids sample_server /\
  0 <= 2 /\
  fst (Api.fetchNewsByTag sample_server (ret rows) 5 2 fresh) =
    Returned [item 200 "c"; item 30 "thirty"] /\
  (length [item 200 "c"; item 30 "thirty"] <= Z.to_nat 2)%nat.
Proof.
  intros rows.
  assert (H2 : 0 <= 2) by lia.
  assert (H3 : fst (Api.fetchNewsByTag sample_server (ret rows) 5 2 fresh) =
               Returned [item 200 "c"; item 30 "thirty"]) by reflexivity.
  split; [exact sample_server_unique_ids|]. split; [exact H2|]. split; [exact H3|].
  exact (fetchNewsByTag_at_most_limit sample_server (ret rows) 5 2 fresh _
           sample_server_unique_ids H2 H3).
Defined.
